(** * Replica selection and inbound call contexts

    A shallow embedding of two units of the tablet database:

    - [Rpc]: [src/yb/rpc/rpc_context.cc], the per-call object handed to
      service handlers ([RpcContext]) together with the protobuf tracer
      [PbTracer] it uses for trace events;
    - [Placement]: the locality-aware replica selector exercised by
      [src/yb/integration-tests/placement_info-itest.cc].

    Stateful code is written in a small state-and-failure monad over a
    [World] that holds the heap objects the code touches and the sequence of
    calls it makes on its collaborators. *)

From Stdlib Require Import ZArith String Ascii List Lia DecimalString.
From Stdlib Require Import DecimalNat Permutation.
From stdpp Require Import base option strings list gmap.

#[local] Set Warnings "-register-all".

Module Rpc.

(** ** Protobuf messages *)

(** A message as the reflection interface shows it: named fields holding a
    string, a number or a nested message. *)
Inductive FieldValue : Type :=
| FString (s : string)
| FInt (z : Z)
| FMessage (fields : list (string * FieldValue)).

Definition Message : Type := list (string * FieldValue).

(** [EmptyMessagePB]: the message type without fields. *)
Definition EmptyMessagePB : Message := [].

(** Every string held by a field of the message, at any nesting depth. *)
Fixpoint value_strings (v : FieldValue) : list string :=
  match v with
  | FString s => [s]
  | FInt _ => []
  | FMessage fs => flat_map (fun nv => value_strings (snd nv)) fs
  end.

Definition message_strings (m : Message) : list string :=
  flat_map (fun nv => value_strings (snd nv)) m.

(** Structural induction that reaches the values of a nested message. *)
Fixpoint FieldValue_nested_ind (P : FieldValue -> Prop)
    (HString : forall s, P (FString s))
    (HInt : forall z, P (FInt z))
    (HMessage : forall fs, Forall (fun nv => P (snd nv)) fs -> P (FMessage fs))
    (v : FieldValue) : P v :=
  match v with
  | FString s => HString s
  | FInt z => HInt z
  | FMessage fs =>
      HMessage fs
        ((fix all (l : list (string * FieldValue))
            : Forall (fun nv => P (snd nv)) l :=
            match l with
            | [] => List.Forall_nil _
            | nv :: rest =>
                List.Forall_cons _ nv rest
                  (FieldValue_nested_ind P HString HInt HMessage (snd nv))
                  (all rest)
            end) fs)
  end.

(** Modelled from the spec: [pb_util::TruncateFields] and the helpers it
    uses live in pb_util.cc, which is not among the sources.  The spec asks
    to "cap any single field's captured length" at the given number of
    units: a string keeps at most its first [max_len] characters. *)
Fixpoint TruncateString (s : string) (max_len : nat) : string :=
  match max_len, s with
  | O, _ => EmptyString
  | S _, EmptyString => EmptyString
  | S n, String c rest => String c (TruncateString rest n)
  end.

(** Modelled from the spec: the cap applies to every string the value
    holds, at any nesting depth; numbers are left alone. *)
Fixpoint TruncateValue (v : FieldValue) (max_len : nat) : FieldValue :=
  match v with
  | FString s => FString (TruncateString s max_len)
  | FInt z => FInt z
  | FMessage fs =>
      FMessage (map (fun nv => (fst nv, TruncateValue (snd nv) max_len)) fs)
  end.

(** Modelled from the spec: [pb_util::TruncateFields(message, max_len)]
    caps every field of the message. *)
Definition TruncateFields (m : Message) (max_len : nat) : Message :=
  map (fun nv => (fst nv, TruncateValue (snd nv) max_len)) m.

(** ** [PbTracer]

    Wrapper for a protobuf message which lazily converts to JSON when the
    trace buffer is dumped.  The constructor makes a private copy
    ([msg.New()] then [CopyFrom]); [AppendAsTraceFormat] truncates that copy
    in place before it is written. *)

Definition kMaxFieldLengthToTrace : nat := 100.

Record PbTracer : Type := { msg_ : Message }.

Definition TracePb (msg : Message) : PbTracer := {| msg_ := msg |}.

(** ** Collaborators of the call context

    Types declared outside rpc_context.cc are represented by what the file
    observes of them. *)

Record UserCredentials : Type := { UserCredentials_ToString : string }.
Record Sockaddr : Type := { Sockaddr_ToString : string }.
Record Status : Type := { Status_ToString : string }.
Record Trace : Type := { DumpToString : bool -> string }.

(** A histogram is identified by the metric entity it belongs to. *)
Definition Histogram : Type := nat.
Record RpcMethodMetrics : Type := { handler_latency : Histogram }.

(** Modelled from the spec: the error-code enumeration is declared in the RPC
    header protocol file, which is not among the sources.  rpc_context.cc
    names [ERROR_APPLICATION]; the other members are the transport and
    protocol codes the spec lists (unsupported method, malformed request,
    overloaded). *)
Inductive ErrorStatusPB_RpcErrorCodePB : Type :=
| ERROR_APPLICATION
| ERROR_NO_SUCH_METHOD
| ERROR_INVALID_REQUEST
| ERROR_SERVER_TOO_BUSY.

(** The transport-level call an [RpcContext] wraps ([InboundCallPtr]). *)
Record InboundCall : Type := {
  call_id : nat;
  remote_method_service_name : string;
  call_ToString : string;
  call_user_credentials : UserCredentials;
  call_remote_address : Sockaddr;
  call_GetClientDeadline : Z;
  call_trace : Trace;
  connection_socket_GetFd : Z
}.

(** [shared_ptr<const Message>]: null, the process-wide [EMPTY_MESSAGE]
    object, or a message on the heap. *)
Inductive MessagePtr : Type :=
| nullptr
| StaticEmptyMessage
| HeapMessage (addr : nat).

(** [static const shared_ptr<const Message> EMPTY_MESSAGE =
      shared_ptr<const Message>(new EmptyMessagePB());] *)
Definition EMPTY_MESSAGE : MessagePtr := StaticEmptyMessage.

Record RpcContext : Type := {
  call_ : InboundCall;
  request_pb_ : MessagePtr;
  response_pb_ : MessagePtr;
  metrics_ : RpcMethodMetrics
}.

(** An argument of a trace event: a string, or a protobuf wrapped for lazy
    conversion. *)
Inductive TraceArg : Type :=
| ArgString (s : string)
| ArgPb (t : PbTracer).

(** What the code does to the world outside the context, in program order:
    a line logged with [VLOG], a use of one of the trace-event macros
    [TRACE_EVENT_ASYNC_BEGIN2] and [TRACE_EVENT_ASYNC_END2] with its
    arguments, or a method called on the wrapped call. *)
Inductive Event : Type :=
| VLog (verbosity : nat) (text : string)
| TraceEventAsyncBegin2 (category name : string) (id : nat)
    (arg1 arg2 : string * TraceArg)
| TraceEventAsyncEnd2 (category name : string) (id : nat)
    (arg1 arg2 : string * TraceArg)
| CallRecordHandlingCompleted (call : InboundCall) (histogram : Histogram)
| CallRespondSuccess (call : InboundCall) (response : Message)
| CallRespondFailure (call : InboundCall)
    (error_code : ErrorStatusPB_RpcErrorCodePB) (status : Status)
| CallRespondApplicationError (call : InboundCall) (error_ext_id : Z)
    (message : string) (app_error_pb : Message)
| CallAddRpcSidecar (call : InboundCall) (car : list Byte.byte).

(** A stream socket: each direction is open until it is shut down. *)
Record Socket : Type := { read_open : bool; write_open : bool }.

Record World : Type := {
  FLAGS_v : nat;
  messages : gmap nat Message;
  contexts : gmap nat RpcContext;
  sockets : gmap Z Socket;
  events : list Event
}.

Definition with_contexts (c : gmap nat RpcContext) (w : World) : World :=
  {| FLAGS_v := FLAGS_v w; messages := messages w; contexts := c;
     sockets := sockets w; events := events w |}.

Definition with_sockets (s : gmap Z Socket) (w : World) : World :=
  {| FLAGS_v := FLAGS_v w; messages := messages w; contexts := contexts w;
     sockets := s; events := events w |}.

Definition with_events (e : list Event) (w : World) : World :=
  {| FLAGS_v := FLAGS_v w; messages := messages w; contexts := contexts w;
     sockets := sockets w; events := e |}.

Definition with_messages (m : gmap nat Message) (w : World) : World :=
  {| FLAGS_v := FLAGS_v w; messages := m; contexts := contexts w;
     sockets := sockets w; events := events w |}.

(** ** The monad: state passing over [World]; [None] is undefined behaviour
    (a null or dangling pointer dereferenced, a method called on a deleted
    object). *)

Definition M (A : Type) : Type := World -> option (A * World).

Definition ret {A : Type} (a : A) : M A := fun w => Some (a, w).

Definition bind {A B : Type} (m : M A) (k : A -> M B) : M B :=
  fun w => match m w with
           | Some (a, w') => k a w'
           | None => None
           end.

Declare Scope rpc_scope.
Delimit Scope rpc_scope with rpc.
Notation "x <- m ;; k" := (bind m (fun x => k))
  (at level 100, m at next level, right associativity) : rpc_scope.
Notation "m ;;; k" := (bind m (fun _ => k))
  (at level 100, right associativity) : rpc_scope.
Local Open Scope rpc_scope.

Definition emit (e : Event) : M unit :=
  fun w => Some (tt, with_events (events w ++ [e]) w).

Definition VLOG_IS_ON (n : nat) : M bool :=
  fun w => Some (Nat.leb n (FLAGS_v w), w).

(** The message a pointer designates, if any. *)
Definition message_at (w : World) (p : MessagePtr) : option Message :=
  match p with
  | nullptr => None
  | StaticEmptyMessage => Some EmptyMessagePB
  | HeapMessage a => messages w !! a
  end.

(** [*p] for a message pointer. *)
Definition deref (p : MessagePtr) : M Message :=
  fun w => match message_at w p with
           | Some m => Some (m, w)
           | None => None
           end.

(** [this->...]: the object must still be alive. *)
Definition load_this (this : nat) : M RpcContext :=
  fun w => match contexts w !! this with
           | Some ctx => Some (ctx, w)
           | None => None
           end.

(** The destructor of a payload member.  The constructor with payloads
    builds each [shared_ptr] from a raw pointer, so the member is the only
    owner of a message on the heap and destroys it; a member that is null
    holds nothing, and the process-wide [EMPTY_MESSAGE] keeps its own
    reference to the empty message, which therefore stays.  Afterwards the
    heap has no message at the address, whether or not one was left there
    to destroy. *)
Definition destroyed (p : MessagePtr) (heap : gmap nat Message)
  : gmap nat Message :=
  match p with
  | HeapMessage a => delete a heap
  | nullptr | StaticEmptyMessage => heap
  end.

(** The heap once the payload members of [ctx] are destroyed: members go in
    the reverse of their order in the class, [response_pb_] before
    [request_pb_]. *)
Definition released (ctx : RpcContext) (heap : gmap nat Message)
  : gmap nat Message :=
  destroyed (request_pb_ ctx) (destroyed (response_pb_ ctx) heap).

(** [delete this;] runs the (empty) destructor body, destroys the members,
    the payloads with them, and frees the object. *)
Definition delete_this (this : nat) : M unit :=
  ctx <- load_this this ;;
  fun w => Some (tt, with_contexts (delete this (contexts w))
                       (with_messages (released ctx (messages w)) w)).

(** ** The socket call behind [CloseConnection]

    [shutdown(2)] and its [how] constants come from the platform's
    <sys/socket.h>; on Linux, the BSDs and macOS they are 0, 1 and 2. *)

Definition SHUT_RD : Z := 0.
Definition SHUT_WR : Z := 1.
Definition SHUT_RDWR : Z := 2.

Definition shutdown_socket (how : Z) (s : Socket) : option Socket :=
  if decide (how = SHUT_RD) then
    Some {| read_open := false; write_open := write_open s |}
  else if decide (how = SHUT_WR) then
    Some {| read_open := read_open s; write_open := false |}
  else if decide (how = SHUT_RDWR) then
    Some {| read_open := false; write_open := false |}
  else None.

(** Returns 0 on success and -1 for a bad descriptor or a bad [how]. *)
Definition shutdown (fd how : Z) : M Z :=
  fun w => match sockets w !! fd with
           | None => Some ((-1)%Z, w)
           | Some s =>
               match shutdown_socket how s with
               | Some s' => Some (0%Z, with_sockets (<[fd := s']> (sockets w)) w)
               | None => Some ((-1)%Z, w)
               end
           end.

Definition endl : string := String (ascii_of_nat 10) EmptyString.

Section WithLibrary.

(** Library routines the file calls: protobuf's [DebugString], the JSON
    writer's [Protobuf] and [InboundCall::ApplicationErrorToPB]. *)
Variable DebugString : Message -> string.
Variable JsonWriter_Protobuf : Message -> string.
Variable ApplicationErrorToPB : Z -> string -> Message -> Message.

(** [PbTracer::AppendAsTraceFormat]: truncates the held copy, writes it as
    compact JSON and appends that to [out].  Returns the tracer as it is
    afterwards and the new contents of [out]. *)
Definition AppendAsTraceFormat (t : PbTracer) (out : string)
  : PbTracer * string :=
  let msg := TruncateFields (msg_ t) kMaxFieldLengthToTrace in
  let ss := JsonWriter_Protobuf msg in
  ({| msg_ := msg |}, out +:+ ss).

(** [VLOG(4) << ...]: the streamed expression is evaluated only when the
    verbosity is on. *)
Definition VLOG4 (text : M string) : M unit :=
  on <- VLOG_IS_ON 4 ;;
  if on then (t <- text ;; emit (VLog 4 t)) else ret tt.

(** [(p.get() != nullptr ? p->DebugString() : "nullptr")] *)
Definition DebugString_or_nullptr (p : MessagePtr) : M string :=
  match p with
  | nullptr => ret "nullptr"
  | _ => m <- deref p ;; ret (DebugString m)
  end.

(** The body shared by both constructors, after the member initialisers. *)
Definition constructed (this : nat) (ctx : RpcContext) : M unit :=
  (fun w => Some (tt, with_contexts (<[this := ctx]> (contexts w)) w)) ;;;
  VLOG4 (req <- DebugString_or_nullptr (request_pb_ ctx) ;;
         resp <- DebugString_or_nullptr (response_pb_ ctx) ;;
         ret (remote_method_service_name (call_ ctx)
              +:+ ": Received RPC request for " +:+ call_ToString (call_ ctx)
              +:+ endl +:+ " request_pb_ : " +:+ req
              +:+ endl +:+ " response_pb_ : " +:+ resp +:+ endl)) ;;;
  req <- deref (request_pb_ ctx) ;;
  emit (TraceEventAsyncBegin2 "rpc_call" "RPC" this
          ("call", ArgString (call_ToString (call_ ctx)))
          ("request", ArgPb (TracePb req))).

(** [RpcContext::RpcContext(call, request_pb, response_pb, metrics)] *)
Definition RpcContext_new (this : nat) (call : InboundCall)
    (request_pb response_pb : MessagePtr) (metrics : RpcMethodMetrics)
  : M unit :=
  constructed this {| call_ := call; request_pb_ := request_pb;
                      response_pb_ := response_pb; metrics_ := metrics |}.

(** [RpcContext::RpcContext(call, metrics)] *)
Definition RpcContext_new_noargs (this : nat) (call : InboundCall)
    (metrics : RpcMethodMetrics) : M unit :=
  constructed this {| call_ := call; request_pb_ := EMPTY_MESSAGE;
                      response_pb_ := EMPTY_MESSAGE; metrics_ := metrics |}.

(** The payload accessors of the class ([request_pb_.get()] and
    [response_pb_.get()]). *)
Definition request_pb (this : nat) : M MessagePtr :=
  ctx <- load_this this ;; ret (request_pb_ ctx).

Definition response_pb (this : nat) : M MessagePtr :=
  ctx <- load_this this ;; ret (response_pb_ ctx).

Definition trace_dump (ctx : RpcContext) : string :=
  DumpToString (call_trace (call_ ctx)) true.

Definition RespondSuccess (this : nat) : M unit :=
  ctx <- load_this this ;;
  emit (CallRecordHandlingCompleted (call_ ctx)
          (handler_latency (metrics_ ctx))) ;;;
  VLOG4 (resp <- deref (response_pb_ ctx) ;;
         ret (remote_method_service_name (call_ ctx)
              +:+ ": Sending RPC success response for "
              +:+ call_ToString (call_ ctx) +:+ ":" +:+ endl
              +:+ DebugString resp)) ;;;
  resp <- deref (response_pb_ ctx) ;;
  emit (TraceEventAsyncEnd2 "rpc_call" "RPC" this
          ("response", ArgPb (TracePb resp))
          ("trace", ArgString (trace_dump ctx))) ;;;
  emit (CallRespondSuccess (call_ ctx) resp) ;;;
  delete_this this.

Definition RespondFailure (this : nat) (status : Status) : M unit :=
  ctx <- load_this this ;;
  emit (CallRecordHandlingCompleted (call_ ctx)
          (handler_latency (metrics_ ctx))) ;;;
  VLOG4 (ret (remote_method_service_name (call_ ctx)
              +:+ ": Sending RPC failure response for "
              +:+ call_ToString (call_ ctx) +:+ ": "
              +:+ Status_ToString status)) ;;;
  emit (TraceEventAsyncEnd2 "rpc_call" "RPC" this
          ("status", ArgString (Status_ToString status))
          ("trace", ArgString (trace_dump ctx))) ;;;
  emit (CallRespondFailure (call_ ctx) ERROR_APPLICATION status) ;;;
  delete_this this.

Definition RespondRpcFailure (this : nat)
    (err : ErrorStatusPB_RpcErrorCodePB) (status : Status) : M unit :=
  ctx <- load_this this ;;
  emit (CallRecordHandlingCompleted (call_ ctx)
          (handler_latency (metrics_ ctx))) ;;;
  VLOG4 (ret (remote_method_service_name (call_ ctx)
              +:+ ": Sending RPC failure response for "
              +:+ call_ToString (call_ ctx) +:+ ": "
              +:+ Status_ToString status)) ;;;
  emit (TraceEventAsyncEnd2 "rpc_call" "RPC" this
          ("status", ArgString (Status_ToString status))
          ("trace", ArgString (trace_dump ctx))) ;;;
  emit (CallRespondFailure (call_ ctx) err status) ;;;
  delete_this this.

Definition RespondApplicationError (this : nat) (error_ext_id : Z)
    (message : string) (app_error_pb : Message) : M unit :=
  ctx <- load_this this ;;
  emit (CallRecordHandlingCompleted (call_ ctx)
          (handler_latency (metrics_ ctx))) ;;;
  on <- VLOG_IS_ON 4 ;;
  (if on then
     let err := ApplicationErrorToPB error_ext_id message app_error_pb in
     VLOG4 (ret (remote_method_service_name (call_ ctx)
                 +:+ ": Sending application error response for "
                 +:+ call_ToString (call_ ctx) +:+ ":" +:+ endl
                 +:+ DebugString err)) ;;;
     emit (TraceEventAsyncEnd2 "rpc_call" "RPC" this
             ("response", ArgPb (TracePb app_error_pb))
             ("trace", ArgString (trace_dump ctx)))
   else ret tt) ;;;
  emit (CallRespondApplicationError (call_ ctx) error_ext_id message
          app_error_pb) ;;;
  delete_this this.

Definition user_credentials (this : nat) : M UserCredentials :=
  ctx <- load_this this ;; ret (call_user_credentials (call_ ctx)).

Definition remote_address (this : nat) : M Sockaddr :=
  ctx <- load_this this ;; ret (call_remote_address (call_ ctx)).

Definition requestor_string (this : nat) : M string :=
  ctx <- load_this this ;;
  ret (UserCredentials_ToString (call_user_credentials (call_ ctx))
       +:+ " at "
       +:+ Sockaddr_ToString (call_remote_address (call_ ctx))).

Definition GetClientDeadline (this : nat) : M Z :=
  ctx <- load_this this ;; ret (call_GetClientDeadline (call_ ctx)).

Definition trace (this : nat) : M Trace :=
  ctx <- load_this this ;; ret (call_trace (call_ ctx)).

(** A sidecar attached earlier to the given call. *)
Definition is_sidecar_of (call : InboundCall) (e : Event) : bool :=
  match e with
  | CallAddRpcSidecar c _ => Nat.eqb (call_id c) (call_id call)
  | _ => false
  end.

Definition Status_OK : Status := {| Status_ToString := "OK" |}.

(** Modelled from the spec: [InboundCall::AddRpcSidecar] is not among the
    sources.  The buffer joins the call's ordered list of sidecars and its
    index in that list is returned. *)
Definition call_AddRpcSidecar (call : InboundCall) (car : list Byte.byte)
  : M (Status * Z) :=
  fun w =>
    let idx := length (List.filter (is_sidecar_of call) (events w)) in
    Some ((Status_OK, Z.of_nat idx),
          with_events (events w ++ [CallAddRpcSidecar call car]) w).

(** [RpcContext::AddRpcSidecar(car, idx)]: the status and the value left in
    [*idx]. *)
Definition AddRpcSidecar (this : nat) (car : list Byte.byte)
  : M (Status * Z) :=
  ctx <- load_this this ;; call_AddRpcSidecar (call_ ctx) car.

Definition CloseConnection (this : nat) : M unit :=
  ctx <- load_this this ;;
  shutdown (connection_socket_GetFd (call_ ctx)) (Z.lor SHUT_RD SHUT_WR) ;;;
  ret tt.

(** ** Observations on the sequence of events *)

(** The call handle's send path: one of its three respond methods. *)
Definition is_send (e : Event) : bool :=
  match e with
  | CallRespondSuccess _ _
  | CallRespondFailure _ _ _
  | CallRespondApplicationError _ _ _ _ => true
  | _ => false
  end.

Definition sends (es : list Event) : list Event := List.filter is_send es.

(** A latency sample recorded on histogram [h]. *)
Definition is_latency_sample (h : Histogram) (e : Event) : bool :=
  match e with
  | CallRecordHandlingCompleted _ h' => Nat.eqb h h'
  | _ => false
  end.

Definition latency_samples (h : Histogram) (es : list Event) : nat :=
  length (List.filter (is_latency_sample h) es).

Definition is_trace_end (e : Event) : bool :=
  match e with
  | TraceEventAsyncEnd2 _ _ _ _ _ => true
  | _ => false
  end.

Definition trace_ends (es : list Event) : list Event :=
  List.filter is_trace_end es.

(** The heap after the context at [this] has destroyed its payloads. *)
Definition payloads_released (this : nat) (w : World) : gmap nat Message :=
  match contexts w !! this with
  | Some ctx => released ctx (messages w)
  | None => messages w
  end.

(** The end state of a terminal operation: the events [new] appended, the
    context at [this] deleted and its payloads destroyed. *)
Definition finished (this : nat) (new : list Event) (w : World) : World :=
  with_contexts (delete this (contexts w))
    (with_messages (payloads_released this w)
       (with_events (events w ++ new) w)).

(** The events of [w'] that were not yet in [w]. *)
Definition new_events (w w' : World) : list Event :=
  drop (length (events w)) (events w').

(** The log line a respond method writes at verbosity 4. *)
Definition verbose_line (w : World) (text : string) : list Event :=
  if Nat.leb 4 (FLAGS_v w) then [VLog 4 text] else [].

(** The events [RespondApplicationError] writes inside its verbosity test. *)
Definition verbose_block (w : World) (this : nat) (ctx : RpcContext)
    (error_ext_id : Z) (message : string) (app_error_pb : Message)
  : list Event :=
  if Nat.leb 4 (FLAGS_v w) then
    [VLog 4 (remote_method_service_name (call_ ctx)
             +:+ ": Sending application error response for "
             +:+ call_ToString (call_ ctx) +:+ ":" +:+ endl
             +:+ DebugString
                  (ApplicationErrorToPB error_ext_id message app_error_pb));
     TraceEventAsyncEnd2 "rpc_call" "RPC" this
       ("response", ArgPb (TracePb app_error_pb))
       ("trace", ArgString (trace_dump ctx))]
  else [].

(** The methods a handler can call on its context. *)
Inductive Method : Type :=
| DoRespondSuccess
| DoRespondFailure (status : Status)
| DoRespondRpcFailure (err : ErrorStatusPB_RpcErrorCodePB) (status : Status)
| DoRespondApplicationError (error_ext_id : Z) (message : string)
    (app_error_pb : Message)
| DoRequestPb
| DoResponsePb
| DoUserCredentials
| DoRemoteAddress
| DoRequestorString
| DoGetClientDeadline
| DoTrace
| DoAddRpcSidecar (car : list Byte.byte)
| DoCloseConnection.

Definition invoke (this : nat) (m : Method) : M unit :=
  match m with
  | DoRespondSuccess => RespondSuccess this
  | DoRespondFailure status => RespondFailure this status
  | DoRespondRpcFailure err status => RespondRpcFailure this err status
  | DoRespondApplicationError error_ext_id message app_error_pb =>
      RespondApplicationError this error_ext_id message app_error_pb
  | DoRequestPb => request_pb this ;;; ret tt
  | DoResponsePb => response_pb this ;;; ret tt
  | DoUserCredentials => user_credentials this ;;; ret tt
  | DoRemoteAddress => remote_address this ;;; ret tt
  | DoRequestorString => requestor_string this ;;; ret tt
  | DoGetClientDeadline => GetClientDeadline this ;;; ret tt
  | DoTrace => trace this ;;; ret tt
  | DoAddRpcSidecar car => AddRpcSidecar this car ;;; ret tt
  | DoCloseConnection => CloseConnection this
  end.

(** The terminal methods: the four that respond. *)
Definition is_terminal (m : Method) : bool :=
  match m with
  | DoRespondSuccess
  | DoRespondFailure _
  | DoRespondRpcFailure _ _
  | DoRespondApplicationError _ _ _ => true
  | _ => false
  end.

Fixpoint invoke_all (this : nat) (ms : list Method) : M unit :=
  match ms with
  | [] => ret tt
  | m :: rest => invoke this m ;;; invoke_all this rest
  end.

(** ** How each operation runs *)

#[local] Arguments Nat.leb : simpl never.

Lemma message_at_with_events (w : World) (es : list Event) (p : MessagePtr) :
  message_at (with_events es w) p = message_at w p.
Proof. destruct p; reflexivity. Qed.

Lemma new_events_finished (this : nat) (new : list Event) (w : World) :
  new_events w (finished this new w) = new.
Proof. unfold new_events, finished. cbn. apply drop_app_length. Qed.

Lemma contexts_finished (this : nat) (new : list Event) (w : World) :
  contexts (finished this new w) !! this = None.
Proof. unfold finished. cbn. apply lookup_delete_eq. Qed.

Ltac run_method Hctx :=
  unfold bind, load_this; rewrite Hctx;
  unfold emit, VLOG4, bind, VLOG_IS_ON, verbose_line, finished,
    payloads_released; rewrite ?Hctx; cbn;
  let Hv := fresh "Hv" in
  destruct (Nat.leb 4 (FLAGS_v _)) eqn:Hv; cbn; rewrite ?Hv; cbn;
  unfold deref, bind, emit, ret, delete_this, load_this; cbn;
  rewrite ?message_at_with_events, ?Hctx.

Ltac close_run :=
  cbn; unfold delete_this, bind, load_this; cbn;
  repeat match goal with
         | H : contexts ?w !! ?this = Some _ |- context [contexts ?w !! ?this] =>
             rewrite H
         end;
  unfold with_contexts, with_messages, with_events; cbn;
  rewrite <- ?app_assoc; reflexivity.

Lemma RespondSuccess_run (this : nat) (w : World) (ctx : RpcContext)
    (resp : Message) :
  contexts w !! this = Some ctx ->
  message_at w (response_pb_ ctx) = Some resp ->
  RespondSuccess this w =
    Some (tt, finished this
      ([CallRecordHandlingCompleted (call_ ctx) (handler_latency (metrics_ ctx))]
       ++ verbose_line w
            (remote_method_service_name (call_ ctx)
             +:+ ": Sending RPC success response for "
             +:+ call_ToString (call_ ctx) +:+ ":" +:+ endl
             +:+ DebugString resp)
       ++ [TraceEventAsyncEnd2 "rpc_call" "RPC" this
             ("response", ArgPb (TracePb resp))
             ("trace", ArgString (trace_dump ctx));
           CallRespondSuccess (call_ ctx) resp]) w).
Proof.
  intros Hctx Hresp. unfold RespondSuccess.
  run_method Hctx; rewrite Hresp; cbn;
    rewrite ?message_at_with_events, ?Hresp; close_run.
Qed.

Lemma RespondRpcFailure_run (this : nat) (w : World) (ctx : RpcContext)
    (err : ErrorStatusPB_RpcErrorCodePB) (status : Status) :
  contexts w !! this = Some ctx ->
  RespondRpcFailure this err status w =
    Some (tt, finished this
      ([CallRecordHandlingCompleted (call_ ctx) (handler_latency (metrics_ ctx))]
       ++ verbose_line w
            (remote_method_service_name (call_ ctx)
             +:+ ": Sending RPC failure response for "
             +:+ call_ToString (call_ ctx) +:+ ": "
             +:+ Status_ToString status)
       ++ [TraceEventAsyncEnd2 "rpc_call" "RPC" this
             ("status", ArgString (Status_ToString status))
             ("trace", ArgString (trace_dump ctx));
           CallRespondFailure (call_ ctx) err status]) w).
Proof.
  intros Hctx. unfold RespondRpcFailure. run_method Hctx; close_run.
Qed.

Lemma RespondFailure_run (this : nat) (w : World) (ctx : RpcContext)
    (status : Status) :
  contexts w !! this = Some ctx ->
  RespondFailure this status w =
    Some (tt, finished this
      ([CallRecordHandlingCompleted (call_ ctx) (handler_latency (metrics_ ctx))]
       ++ verbose_line w
            (remote_method_service_name (call_ ctx)
             +:+ ": Sending RPC failure response for "
             +:+ call_ToString (call_ ctx) +:+ ": "
             +:+ Status_ToString status)
       ++ [TraceEventAsyncEnd2 "rpc_call" "RPC" this
             ("status", ArgString (Status_ToString status))
             ("trace", ArgString (trace_dump ctx));
           CallRespondFailure (call_ ctx) ERROR_APPLICATION status]) w).
Proof.
  intros Hctx. unfold RespondFailure. run_method Hctx; close_run.
Qed.

Lemma RespondApplicationError_run (this : nat) (w : World) (ctx : RpcContext)
    (error_ext_id : Z) (message : string) (app_error_pb : Message) :
  contexts w !! this = Some ctx ->
  RespondApplicationError this error_ext_id message app_error_pb w =
    Some (tt, finished this
      ([CallRecordHandlingCompleted (call_ ctx) (handler_latency (metrics_ ctx))]
       ++ verbose_block w this ctx error_ext_id message app_error_pb
       ++ [CallRespondApplicationError (call_ ctx) error_ext_id message
             app_error_pb]) w).
Proof.
  intros Hctx. unfold RespondApplicationError, verbose_block.
  run_method Hctx; close_run.
Qed.

(** A method called on a deleted context has no defined behaviour. *)
Lemma terminal_on_deleted (this : nat) (w : World) :
  contexts w !! this = None ->
  RespondSuccess this w = None
  /\ (forall status, RespondFailure this status w = None)
  /\ (forall err status, RespondRpcFailure this err status w = None)
  /\ (forall error_ext_id message app_error_pb,
        RespondApplicationError this error_ext_id message app_error_pb w = None).
Proof.
  intros Hdead.
  unfold RespondSuccess, RespondFailure, RespondRpcFailure,
    RespondApplicationError, bind, load_this.
  rewrite Hdead. repeat split; reflexivity.
Qed.

Lemma CloseConnection_run (this : nat) (w : World) (ctx : RpcContext)
    (s : Socket) :
  contexts w !! this = Some ctx ->
  sockets w !! connection_socket_GetFd (call_ ctx) = Some s ->
  CloseConnection this w =
    Some (tt, with_sockets
                (<[connection_socket_GetFd (call_ ctx) :=
                     {| read_open := read_open s; write_open := false |}]>
                   (sockets w)) w).
Proof.
  intros Hctx Hsock. unfold CloseConnection, bind, load_this.
  rewrite Hctx. unfold shutdown. rewrite Hsock. reflexivity.
Qed.

Lemma constructed_noargs_run (this : nat) (call : InboundCall)
    (metrics : RpcMethodMetrics) (w : World) :
  let ctx := {| call_ := call; request_pb_ := EMPTY_MESSAGE;
                response_pb_ := EMPTY_MESSAGE; metrics_ := metrics |} in
  RpcContext_new_noargs this call metrics w =
    Some (tt, with_events
                (events w
                 ++ verbose_line w
                      (remote_method_service_name call
                       +:+ ": Received RPC request for " +:+ call_ToString call
                       +:+ endl +:+ " request_pb_ : "
                       +:+ DebugString EmptyMessagePB
                       +:+ endl +:+ " response_pb_ : "
                       +:+ DebugString EmptyMessagePB +:+ endl)
                 ++ [TraceEventAsyncBegin2 "rpc_call" "RPC" this
                       ("call", ArgString (call_ToString call))
                       ("request", ArgPb (TracePb EmptyMessagePB))])
                (with_contexts (<[this := ctx]> (contexts w)) w)).
Proof.
  unfold RpcContext_new_noargs, constructed, bind.
  unfold emit, VLOG4, bind, VLOG_IS_ON, verbose_line. cbn.
  destruct (Nat.leb 4 (FLAGS_v w)); cbn;
    unfold with_contexts, with_events; cbn;
    rewrite <- ?app_assoc; reflexivity.
Qed.

Lemma RespondSuccess_undefined (this : nat) (w : World) (ctx : RpcContext) :
  contexts w !! this = Some ctx ->
  message_at w (response_pb_ ctx) = None ->
  RespondSuccess this w = None.
Proof.
  intros Hctx Hresp. unfold RespondSuccess.
  run_method Hctx; rewrite Hresp; reflexivity.
Qed.

Lemma terminal_deletes (this : nat) (m : Method) (w w' : World) :
  is_terminal m = true ->
  invoke this m w = Some (tt, w') ->
  contexts w' !! this = None.
Proof.
  intros Hterm Hrun.
  destruct (contexts w !! this) as [ctx|] eqn:Hctx.
  - destruct m; try discriminate Hterm; cbn [invoke] in Hrun.
    + destruct (message_at w (response_pb_ ctx)) as [resp|] eqn:Hresp.
      * rewrite (RespondSuccess_run _ _ _ _ Hctx Hresp) in Hrun.
        injection Hrun as <-. apply contexts_finished.
      * rewrite (RespondSuccess_undefined _ _ _ Hctx Hresp) in Hrun.
        discriminate.
    + rewrite (RespondFailure_run _ _ _ _ Hctx) in Hrun.
      injection Hrun as <-. apply contexts_finished.
    + rewrite (RespondRpcFailure_run _ _ _ _ _ Hctx) in Hrun.
      injection Hrun as <-. apply contexts_finished.
    + rewrite (RespondApplicationError_run _ _ _ _ _ _ Hctx) in Hrun.
      injection Hrun as <-. apply contexts_finished.
  - destruct (terminal_on_deleted _ _ Hctx) as (H1 & H2 & H3 & H4).
    destruct m; try discriminate Hterm; cbn [invoke] in Hrun;
      rewrite ?H1, ?H2, ?H3, ?H4 in Hrun; discriminate.
Qed.

(** With the code [ERROR_APPLICATION], [RespondRpcFailure] is
    [RespondFailure]. *)
Lemma RespondRpcFailure_ERROR_APPLICATION (this : nat) (status : Status) :
  RespondRpcFailure this ERROR_APPLICATION status = RespondFailure this status.
Proof. reflexivity. Qed.

(** No method of the class stores into the members of a live context: after
    a call the object is as it was, or it is gone. *)
Lemma invoke_context (this : nat) (m : Method) (w w' : World) :
  invoke this m w = Some (tt, w') ->
  contexts w' !! this = contexts w !! this \/ contexts w' !! this = None.
Proof.
  intros Hrun.
  destruct m;
    try (right; refine (terminal_deletes _ _ _ _ _ Hrun); reflexivity);
    left; cbn [invoke] in Hrun;
    unfold request_pb, response_pb, user_credentials, remote_address,
      requestor_string, GetClientDeadline, trace, AddRpcSidecar,
      call_AddRpcSidecar, CloseConnection, bind, load_this, ret, shutdown
      in Hrun;
    destruct (contexts w !! this) as [ctx|] eqn:Hctx; try discriminate;
    cbn beta iota in Hrun.
  1-8: injection Hrun as <-; exact Hctx.
  destruct (sockets w !! _) as [s|].
  - destruct (shutdown_socket _ s); injection Hrun as <-; exact Hctx.
  - injection Hrun as <-; exact Hctx.
Qed.

Lemma invoke_all_context (this : nat) (ms : list Method) (w w' : World) :
  invoke_all this ms w = Some (tt, w') ->
  contexts w' !! this = contexts w !! this \/ contexts w' !! this = None.
Proof.
  revert w. induction ms as [|m rest IH]; intros w Hrun.
  - cbn [invoke_all] in Hrun. unfold ret in Hrun.
    injection Hrun as <-. left. reflexivity.
  - cbn [invoke_all] in Hrun. unfold bind in Hrun.
    destruct (invoke this m w) as [[[] w1]|] eqn:Hm; [|discriminate].
    destruct (IH _ Hrun) as [Hsame|Hgone]; [|right; exact Hgone].
    destruct (invoke_context _ _ _ _ Hm) as [Heq|Hnone].
    + left. congruence.
    + right. congruence.
Qed.

Lemma accessor_reads (this : nat) (w : World) (ctx : RpcContext) :
  contexts w !! this = Some ctx ->
  request_pb this w = Some (request_pb_ ctx, w)
  /\ response_pb this w = Some (response_pb_ ctx, w).
Proof.
  intros Hctx. unfold request_pb, response_pb, bind, load_this.
  rewrite Hctx. split; reflexivity.
Qed.

Lemma accessor_on_deleted (this : nat) (w : World) :
  contexts w !! this = None ->
  request_pb this w = None /\ response_pb this w = None.
Proof.
  intros Hctx. unfold request_pb, response_pb, bind, load_this.
  rewrite Hctx. split; reflexivity.
Qed.

(** Every terminal method, at any verbosity: one latency sample on the
    method's histogram, one call of the send path, and the context
    deleted. *)
Theorem terminal_responds_once (this : nat) (m : Method) (w w' : World)
    (ctx : RpcContext) :
  is_terminal m = true ->
  contexts w !! this = Some ctx ->
  invoke this m w = Some (tt, w') ->
  events w' = events w ++ new_events w w'
  /\ latency_samples (handler_latency (metrics_ ctx)) (new_events w w') = 1
  /\ length (sends (new_events w w')) = 1
  /\ contexts w' !! this = None.
Proof.
  intros Hterm Hctx Hrun.
  assert (Hdone : exists new,
    w' = finished this
           ([CallRecordHandlingCompleted (call_ ctx)
               (handler_latency (metrics_ ctx))] ++ new) w
    /\ latency_samples (handler_latency (metrics_ ctx)) new = 0
    /\ length (sends new) = 1).
  { destruct m; try discriminate Hterm; cbn [invoke] in Hrun.
    - destruct (message_at w (response_pb_ ctx)) as [resp|] eqn:Hresp.
      + rewrite (RespondSuccess_run _ _ _ _ Hctx Hresp) in Hrun.
        injection Hrun as <-. eexists. split; [reflexivity|].
        unfold verbose_line. destruct (Nat.leb 4 (FLAGS_v w)); split; reflexivity.
      + rewrite (RespondSuccess_undefined _ _ _ Hctx Hresp) in Hrun.
        discriminate.
    - rewrite (RespondFailure_run _ _ _ _ Hctx) in Hrun.
      injection Hrun as <-. eexists. split; [reflexivity|].
      unfold verbose_line. destruct (Nat.leb 4 (FLAGS_v w)); split; reflexivity.
    - rewrite (RespondRpcFailure_run _ _ _ _ _ Hctx) in Hrun.
      injection Hrun as <-. eexists. split; [reflexivity|].
      unfold verbose_line. destruct (Nat.leb 4 (FLAGS_v w)); split; reflexivity.
    - rewrite (RespondApplicationError_run _ _ _ _ _ _ Hctx) in Hrun.
      injection Hrun as <-. eexists. split; [reflexivity|].
      unfold verbose_block. destruct (Nat.leb 4 (FLAGS_v w)); split; reflexivity. }
  destruct Hdone as (new & -> & Hlat & Hsend).
  rewrite new_events_finished.
  split; [reflexivity|]. split; [|split; [|apply contexts_finished]].
  - unfold latency_samples in *. cbn [app List.filter is_latency_sample].
    rewrite Nat.eqb_refl. cbn [length]. rewrite Hlat. reflexivity.
  - exact Hsend.
Qed.

(** The three sibling paths write their trace-span-end event at every
    verbosity. *)
Theorem siblings_emit_trace_end (this : nat) (w : World) (ctx : RpcContext) :
  contexts w !! this = Some ctx ->
  (forall resp w',
      message_at w (response_pb_ ctx) = Some resp ->
      RespondSuccess this w = Some (tt, w') ->
      trace_ends (new_events w w') =
        [TraceEventAsyncEnd2 "rpc_call" "RPC" this
           ("response", ArgPb (TracePb resp))
           ("trace", ArgString (trace_dump ctx))])
  /\ (forall status w',
      RespondFailure this status w = Some (tt, w') ->
      trace_ends (new_events w w') =
        [TraceEventAsyncEnd2 "rpc_call" "RPC" this
           ("status", ArgString (Status_ToString status))
           ("trace", ArgString (trace_dump ctx))])
  /\ (forall err status w',
      RespondRpcFailure this err status w = Some (tt, w') ->
      trace_ends (new_events w w') =
        [TraceEventAsyncEnd2 "rpc_call" "RPC" this
           ("status", ArgString (Status_ToString status))
           ("trace", ArgString (trace_dump ctx))]).
Proof.
  intros Hctx. repeat split.
  - intros resp w' Hresp Hrun.
    rewrite (RespondSuccess_run _ _ _ _ Hctx Hresp) in Hrun.
    injection Hrun as <-. rewrite new_events_finished.
    unfold verbose_line. destruct (Nat.leb 4 (FLAGS_v w)); reflexivity.
  - intros status w' Hrun.
    rewrite (RespondFailure_run _ _ _ _ Hctx) in Hrun.
    injection Hrun as <-. rewrite new_events_finished.
    unfold verbose_line. destruct (Nat.leb 4 (FLAGS_v w)); reflexivity.
  - intros err status w' Hrun.
    rewrite (RespondRpcFailure_run _ _ _ _ _ Hctx) in Hrun.
    injection Hrun as <-. rewrite new_events_finished.
    unfold verbose_line. destruct (Nat.leb 4 (FLAGS_v w)); reflexivity.
Qed.

(** ** Truncation *)

Lemma TruncateString_length (s : string) (max_len : nat) :
  String.length (TruncateString s max_len) <= max_len.
Proof.
  revert max_len. induction s as [|c rest IH]; intros [|n]; cbn; try lia.
  specialize (IH n). lia.
Qed.

Lemma TruncateString_short (s : string) (max_len : nat) :
  String.length s <= max_len -> TruncateString s max_len = s.
Proof.
  revert max_len. induction s as [|c rest IH]; intros [|n] Hlen;
    cbn in *; try reflexivity; try lia.
  f_equal. apply IH. lia.
Qed.

Lemma TruncateValue_strings (v : FieldValue) (max_len : nat) :
  Forall (fun s => String.length s <= max_len)
    (value_strings (TruncateValue v max_len)).
Proof.
  induction v as [s | z | fs IH] using FieldValue_nested_ind.
  - cbn. constructor; [apply TruncateString_length | constructor].
  - cbn. constructor.
  - cbn [TruncateValue value_strings].
    induction IH as [|nv rest Hnv _ IHrest]; [constructor|].
    cbn [map flat_map]. apply Forall_app. split; [exact Hnv | exact IHrest].
Qed.

Lemma TruncateFields_strings (m : Message) (max_len : nat) :
  Forall (fun s => String.length s <= max_len)
    (message_strings (TruncateFields m max_len)).
Proof.
  unfold message_strings, TruncateFields.
  induction m as [|nv rest IH]; [constructor|].
  cbn [map flat_map]. apply Forall_app. split; [|exact IH].
  apply TruncateValue_strings.
Qed.

Lemma TruncateValue_short (v : FieldValue) (max_len : nat) :
  Forall (fun s => String.length s <= max_len) (value_strings v) ->
  TruncateValue v max_len = v.
Proof.
  induction v as [s | z | fs IH] using FieldValue_nested_ind; intros Hshort.
  - cbn in *. f_equal. apply TruncateString_short.
    apply Forall_inv in Hshort. exact Hshort.
  - reflexivity.
  - cbn [TruncateValue value_strings] in *. f_equal.
    induction IH as [|[n v] rest Hnv _ IHrest]; [reflexivity|].
    cbn [map flat_map fst snd] in *. apply Forall_app in Hshort.
    destruct Hshort as [Hv Hrest].
    rewrite (Hnv Hv), (IHrest Hrest). reflexivity.
Qed.

Lemma TruncateFields_short (m : Message) (max_len : nat) :
  Forall (fun s => String.length s <= max_len) (message_strings m) ->
  TruncateFields m max_len = m.
Proof.
  unfold message_strings, TruncateFields.
  induction m as [|[n v] rest IH]; intros Hshort; [reflexivity|].
  cbn [map flat_map fst snd] in *. apply Forall_app in Hshort.
  destruct Hshort as [Hv Hrest].
  rewrite (TruncateValue_short _ _ Hv), (IH Hrest). reflexivity.
Qed.

(** ** The properties of the call context *)

(** Claim C3.  After [RespondSuccess] on a live context whose response
    payload is valid, exactly one latency sample has been recorded on the
    method's handler-latency histogram and the call handle's send path has
    been invoked exactly once, with the response; the context is deleted, so
    that no terminal method has a defined behaviour on it afterwards. *)
Theorem RespondSuccess_records_once_sends_once (this : nat) (w : World)
    (ctx : RpcContext) (resp : Message) :
  contexts w !! this = Some ctx ->
  message_at w (response_pb_ ctx) = Some resp ->
  exists w',
    RespondSuccess this w = Some (tt, w')
    /\ events w' = events w ++ new_events w w'
    /\ latency_samples (handler_latency (metrics_ ctx)) (new_events w w') = 1
    /\ sends (new_events w w') = [CallRespondSuccess (call_ ctx) resp]
    /\ contexts w' !! this = None
    /\ RespondSuccess this w' = None
    /\ (forall status, RespondFailure this status w' = None)
    /\ (forall err status, RespondRpcFailure this err status w' = None)
    /\ (forall error_ext_id message app_error_pb,
          RespondApplicationError this error_ext_id message app_error_pb w'
          = None).
Proof.
  intros Hctx Hresp. eexists. split; [exact (RespondSuccess_run _ _ _ _ Hctx Hresp)|].
  rewrite new_events_finished.
  split; [reflexivity|].
  split.
  { unfold latency_samples, verbose_line.
    destruct (Nat.leb 4 (FLAGS_v w)); cbn; rewrite Nat.eqb_refl; reflexivity. }
  split.
  { cbn [app sends List.filter is_send].
    unfold verbose_line. destruct (Nat.leb 4 (FLAGS_v w)); reflexivity. }
  split; [apply contexts_finished|].
  apply terminal_on_deleted, contexts_finished.
Qed.

(** Claim C4.  [RespondApplicationError] writes its trace-span-end event
    inside the verbosity test: on a live context it records the latency,
    sends the error and deletes the context, and the trace-span-end event
    is written only when the verbosity is at least 4; below that, the
    latency record and the send are all it does. *)
Theorem RespondApplicationError_trace_end_needs_verbosity (this : nat)
    (w : World) (ctx : RpcContext) (error_ext_id : Z) (message : string)
    (app_error_pb : Message) :
  contexts w !! this = Some ctx ->
  exists w',
    RespondApplicationError this error_ext_id message app_error_pb w
    = Some (tt, w')
    /\ trace_ends (new_events w w') =
         (if Nat.leb 4 (FLAGS_v w) then
            [TraceEventAsyncEnd2 "rpc_call" "RPC" this
               ("response", ArgPb (TracePb app_error_pb))
               ("trace", ArgString (trace_dump ctx))]
          else [])
    /\ (FLAGS_v w < 4 ->
        new_events w w' =
          [CallRecordHandlingCompleted (call_ ctx)
             (handler_latency (metrics_ ctx));
           CallRespondApplicationError (call_ ctx) error_ext_id message
             app_error_pb])
    /\ contexts w' !! this = None.
Proof.
  intros Hctx. eexists.
  split; [exact (RespondApplicationError_run _ _ _ _ _ _ Hctx)|].
  rewrite new_events_finished. unfold verbose_block.
  split; [destruct (Nat.leb 4 (FLAGS_v w)); reflexivity|].
  split; [|apply contexts_finished].
  intros Hquiet.
  assert (Hoff : Nat.leb 4 (FLAGS_v w) = false) by (apply Nat.leb_gt; lia).
  rewrite Hoff. reflexivity.
Qed.

(** The tracers a trace event holds on to, and the strings these retain
    for as long as the event is kept. *)
Definition arg_tracers (a : string * TraceArg) : list PbTracer :=
  match snd a with
  | ArgPb t => [t]
  | ArgString _ => []
  end.

Definition event_tracers (e : Event) : list PbTracer :=
  match e with
  | TraceEventAsyncBegin2 _ _ _ arg1 arg2
  | TraceEventAsyncEnd2 _ _ _ arg1 arg2 => arg_tracers arg1 ++ arg_tracers arg2
  | _ => []
  end.

Definition retained_strings (es : list Event) : list string :=
  flat_map (fun t => message_strings (msg_ t)) (flat_map event_tracers es).

(** Claim C6, as amended.  Capturing a message for the trace copies it in
    full: [PbTracer]'s constructor truncates nothing.  The truncation with
    the limit [kMaxFieldLengthToTrace] = 100 happens when the trace is
    written: [AppendAsTraceFormat] cuts the tracer's copy before it converts
    it, so every string that is written, and of the copy the tracer holds
    from then on, has at most 100 characters; a message whose strings are
    all within the limit is written as it is. *)
Theorem AppendAsTraceFormat_truncates_fields (msg : Message) (out : string) :
  let traced := AppendAsTraceFormat (TracePb msg) out in
  kMaxFieldLengthToTrace = 100
  /\ msg_ (TracePb msg) = msg
  /\ msg_ (fst traced) = TruncateFields msg kMaxFieldLengthToTrace
  /\ snd traced = out +:+ JsonWriter_Protobuf (msg_ (fst traced))
  /\ Forall (fun s => String.length s <= 100)
       (message_strings (msg_ (fst traced)))
  /\ (Forall (fun s => String.length s <= 100) (message_strings msg) ->
      msg_ (fst traced) = msg).
Proof.
  cbn. repeat split.
  - apply (TruncateFields_strings msg 100).
  - apply (TruncateFields_short msg 100).
Qed.

(** Claim C7.  On a live context [requestor_string] returns the string of
    the call's user credentials, then " at ", then the string of the call's
    remote address, and changes nothing. *)
Theorem requestor_string_is_credentials_at_address (this : nat) (w : World)
    (ctx : RpcContext) :
  contexts w !! this = Some ctx ->
  exists creds addr,
    user_credentials this w = Some (creds, w)
    /\ remote_address this w = Some (addr, w)
    /\ requestor_string this w =
         Some (UserCredentials_ToString creds +:+ " at "
               +:+ Sockaddr_ToString addr, w).
Proof.
  intros Hctx.
  exists (call_user_credentials (call_ ctx)), (call_remote_address (call_ ctx)).
  unfold user_credentials, remote_address, requestor_string, bind, load_this.
  rewrite Hctx. repeat split.
Qed.

(** Claim C8.  [CloseConnection] passes [SHUT_RD | SHUT_WR] to [shutdown];
    that value is [SHUT_WR], so on a live context with an open socket only
    the write direction is shut down and the read direction stays as it
    was.  No event is written: nothing is sent through a respond path. *)
Theorem CloseConnection_shuts_down_write_only (this : nat) (w : World)
    (ctx : RpcContext) (s : Socket) :
  contexts w !! this = Some ctx ->
  sockets w !! connection_socket_GetFd (call_ ctx) = Some s ->
  exists w',
    CloseConnection this w = Some (tt, w')
    /\ Z.lor SHUT_RD SHUT_WR = SHUT_WR
    /\ sockets w' !! connection_socket_GetFd (call_ ctx) =
         Some {| read_open := read_open s; write_open := false |}
    /\ events w' = events w
    /\ contexts w' = contexts w.
Proof.
  intros Hctx Hsock. eexists.
  split; [exact (CloseConnection_run _ _ _ _ Hctx Hsock)|].
  split; [reflexivity|].
  split; [apply lookup_insert_eq|].
  split; reflexivity.
Qed.

(** Claim C9.  The constructor without payloads always succeeds and leaves
    both payload members equal to [EMPTY_MESSAGE], one shared object, which
    is not null and designates the empty message in every state of the
    world; whatever methods are called on the context afterwards, a payload
    accessor that returns at all returns that pointer. *)
Theorem noargs_payloads_are_the_empty_message (this : nat)
    (call : InboundCall) (metrics : RpcMethodMetrics) (w : World) :
  exists w',
    RpcContext_new_noargs this call metrics w = Some (tt, w')
    /\ request_pb this w' = Some (EMPTY_MESSAGE, w')
    /\ response_pb this w' = Some (EMPTY_MESSAGE, w')
    /\ EMPTY_MESSAGE <> nullptr
    /\ (forall v, message_at v EMPTY_MESSAGE = Some EmptyMessagePB)
    /\ (forall ms w'' p v,
          invoke_all this ms w' = Some (tt, w'') ->
          request_pb this w'' = Some (p, v)
          \/ response_pb this w'' = Some (p, v) ->
          p = EMPTY_MESSAGE).
Proof.
  eexists. split; [exact (constructed_noargs_run this call metrics w)|].
  set (w' := with_events _ _).
  assert (Hlive : contexts w' !! this =
                  Some {| call_ := call; request_pb_ := EMPTY_MESSAGE;
                          response_pb_ := EMPTY_MESSAGE; metrics_ := metrics |})
    by (subst w'; cbn; apply lookup_insert_eq).
  destruct (accessor_reads _ _ _ Hlive) as [Hreq Hresp].
  split; [exact Hreq|]. split; [exact Hresp|].
  split; [discriminate|]. split; [reflexivity|].
  intros ms w'' p v Hrun Hget.
  destruct (invoke_all_context _ _ _ _ Hrun) as [Hsame|Hgone].
  - rewrite Hlive in Hsame.
    destruct (accessor_reads _ _ _ Hsame) as [Hreq' Hresp'].
    rewrite Hreq', Hresp' in Hget. cbn in Hget.
    destruct Hget as [Hget|Hget]; injection Hget as <- _; reflexivity.
  - destruct (accessor_on_deleted _ _ Hgone) as [Hreq' Hresp'].
    rewrite Hreq', Hresp' in Hget. destruct Hget; discriminate.
Qed.

(** Claim C10.  On a live context [RespondFailure] hands the status to the
    call handle with the code [ERROR_APPLICATION], whatever the status, and
    [RespondRpcFailure] hands over the code it was given; so what the two
    send differs whenever the given code is not [ERROR_APPLICATION]. *)
Theorem RespondFailure_fixed_code_RespondRpcFailure_given_code (this : nat)
    (w : World) (ctx : RpcContext) :
  contexts w !! this = Some ctx ->
  (forall status, exists w',
      RespondFailure this status w = Some (tt, w')
      /\ sends (new_events w w') =
           [CallRespondFailure (call_ ctx) ERROR_APPLICATION status])
  /\ (forall err status, exists w',
      RespondRpcFailure this err status w = Some (tt, w')
      /\ sends (new_events w w') = [CallRespondFailure (call_ ctx) err status])
  /\ (forall err status status' w1 w2,
      err <> ERROR_APPLICATION ->
      RespondFailure this status w = Some (tt, w1) ->
      RespondRpcFailure this err status' w = Some (tt, w2) ->
      sends (new_events w w1) <> sends (new_events w w2)).
Proof.
  intros Hctx.
  assert (Hfail : forall status, exists w',
      RespondFailure this status w = Some (tt, w')
      /\ sends (new_events w w') =
           [CallRespondFailure (call_ ctx) ERROR_APPLICATION status]).
  { intros status. eexists.
    split; [exact (RespondFailure_run _ _ _ _ Hctx)|].
    rewrite new_events_finished. unfold verbose_line.
    destruct (Nat.leb 4 (FLAGS_v w)); reflexivity. }
  assert (Hrpc : forall err status, exists w',
      RespondRpcFailure this err status w = Some (tt, w')
      /\ sends (new_events w w') = [CallRespondFailure (call_ ctx) err status]).
  { intros err status. eexists.
    split; [exact (RespondRpcFailure_run _ _ _ _ _ Hctx)|].
    rewrite new_events_finished. unfold verbose_line.
    destruct (Nat.leb 4 (FLAGS_v w)); reflexivity. }
  split; [exact Hfail|]. split; [exact Hrpc|].
  intros err status status' w1 w2 Hcode Hrun1 Hrun2.
  rewrite (RespondFailure_run _ _ _ _ Hctx) in Hrun1. injection Hrun1 as <-.
  rewrite (RespondRpcFailure_run _ _ _ _ _ Hctx) in Hrun2.
  injection Hrun2 as <-.
  rewrite !new_events_finished. unfold verbose_line.
  destruct (Nat.leb 4 (FLAGS_v w)); cbn; intros Heq;
    injection Heq as Heq _; apply Hcode; symmetry; exact Heq.
Qed.

(** ** What a handler can rely on across several calls *)

(** The events that reach the wrapped call, as opposed to log lines and
    trace events. *)
Definition is_call_event (e : Event) : bool :=
  match e with
  | CallRecordHandlingCompleted _ _
  | CallRespondSuccess _ _
  | CallRespondFailure _ _ _
  | CallRespondApplicationError _ _ _ _
  | CallAddRpcSidecar _ _ => true
  | _ => false
  end.

Definition call_events (es : list Event) : list Event :=
  List.filter is_call_event es.

Definition is_trace_begin (e : Event) : bool :=
  match e with
  | TraceEventAsyncBegin2 _ _ _ _ _ => true
  | _ => false
  end.

Definition trace_begins (es : list Event) : list Event :=
  List.filter is_trace_begin es.

(** The same world run at another verbosity. *)
Definition with_verbosity (v : nat) (w : World) : World :=
  {| FLAGS_v := v; messages := messages w; contexts := contexts w;
     sockets := sockets w; events := events w |}.

(** What a terminal method hands to the call, when it is defined: the
    latency record, then the response. *)
Definition terminal_call_events (w : World) (ctx : RpcContext) (m : Method)
  : option (list Event) :=
  let recorded :=
    CallRecordHandlingCompleted (call_ ctx) (handler_latency (metrics_ ctx)) in
  match m with
  | DoRespondSuccess =>
      match message_at w (response_pb_ ctx) with
      | Some resp => Some [recorded; CallRespondSuccess (call_ ctx) resp]
      | None => None
      end
  | DoRespondFailure status =>
      Some [recorded; CallRespondFailure (call_ ctx) ERROR_APPLICATION status]
  | DoRespondRpcFailure err status =>
      Some [recorded; CallRespondFailure (call_ ctx) err status]
  | DoRespondApplicationError error_ext_id message app_error_pb =>
      Some [recorded;
            CallRespondApplicationError (call_ ctx) error_ext_id message
              app_error_pb]
  | _ => None
  end.

(** The sockets after [CloseConnection] on the given context. *)
Definition closed_sockets (ctx : RpcContext) (socks : gmap Z Socket)
  : gmap Z Socket :=
  match socks !! connection_socket_GetFd (call_ ctx) with
  | Some s =>
      match shutdown_socket (Z.lor SHUT_RD SHUT_WR) s with
      | Some s' => <[connection_socket_GetFd (call_ ctx) := s']> socks
      | None => socks
      end
  | None => socks
  end.

Definition nonterminal_sockets (ctx : RpcContext) (m : Method)
    (socks : gmap Z Socket) : gmap Z Socket :=
  match m with
  | DoCloseConnection => closed_sockets ctx socks
  | _ => socks
  end.

(** What a method that does not respond hands to the call: a sidecar, or
    nothing. *)
Definition nonterminal_call_events (ctx : RpcContext) (m : Method)
  : list Event :=
  match m with
  | DoAddRpcSidecar car => [CallAddRpcSidecar (call_ ctx) car]
  | _ => []
  end.

Lemma invoke_on_deleted (this : nat) (m : Method) (w : World) :
  contexts w !! this = None -> invoke this m w = None.
Proof.
  intros Hdead. destruct m; cbn [invoke];
    unfold RespondSuccess, RespondFailure, RespondRpcFailure,
      RespondApplicationError, request_pb, response_pb, user_credentials,
      remote_address, requestor_string, GetClientDeadline, trace,
      AddRpcSidecar, CloseConnection, bind, load_this;
    rewrite Hdead; reflexivity.
Qed.

Lemma sends_call_events (es : list Event) :
  sends (call_events es) = sends es.
Proof.
  unfold sends, call_events. induction es as [|e rest IH]; [reflexivity|].
  destruct e; cbn; rewrite ?IH; reflexivity.
Qed.

Lemma latency_samples_call_events (h : Histogram) (es : list Event) :
  latency_samples h (call_events es) = latency_samples h es.
Proof.
  unfold latency_samples, call_events.
  induction es as [|e rest IH]; [reflexivity|].
  destruct e; cbn; rewrite ?IH; try reflexivity.
  destruct (Nat.eqb h histogram); cbn; rewrite IH; reflexivity.
Qed.

Lemma latency_samples_app (h : Histogram) (a b : list Event) :
  latency_samples h (a ++ b) = latency_samples h a + latency_samples h b.
Proof.
  unfold latency_samples. rewrite List.filter_app, length_app. reflexivity.
Qed.

Lemma sends_app (a b : list Event) : sends (a ++ b) = sends a ++ sends b.
Proof. unfold sends. apply List.filter_app. Qed.

Lemma call_events_app (a b : list Event) :
  call_events (a ++ b) = call_events a ++ call_events b.
Proof. unfold call_events. apply List.filter_app. Qed.

(** A terminal method on a live context: defined exactly when it has
    something to hand over, and then it ends in [finished]. *)
Lemma terminal_run (this : nat) (m : Method) (w : World) (ctx : RpcContext) :
  is_terminal m = true ->
  contexts w !! this = Some ctx ->
  match terminal_call_events w ctx m with
  | Some handed =>
      exists new,
        invoke this m w = Some (tt, finished this new w)
        /\ call_events new = handed
  | None => invoke this m w = None
  end.
Proof.
  intros Hterm Hctx. destruct m; try discriminate Hterm;
    cbn [invoke terminal_call_events].
  - destruct (message_at w (response_pb_ ctx)) as [resp|] eqn:Hresp.
    + eexists. split; [exact (RespondSuccess_run _ _ _ _ Hctx Hresp)|].
      unfold verbose_line. destruct (Nat.leb 4 (FLAGS_v w)); reflexivity.
    + exact (RespondSuccess_undefined _ _ _ Hctx Hresp).
  - eexists. split; [exact (RespondFailure_run _ _ _ _ Hctx)|].
    unfold verbose_line. destruct (Nat.leb 4 (FLAGS_v w)); reflexivity.
  - eexists. split; [exact (RespondRpcFailure_run _ _ _ _ _ Hctx)|].
    unfold verbose_line. destruct (Nat.leb 4 (FLAGS_v w)); reflexivity.
  - eexists. split; [exact (RespondApplicationError_run _ _ _ _ _ _ Hctx)|].
    unfold verbose_block. destruct (Nat.leb 4 (FLAGS_v w)); reflexivity.
Qed.

(** A method that does not respond, on a live context: always defined; it
    leaves the contexts, the messages and the verbosity alone and writes
    nothing but what it hands to the call. *)
Lemma nonterminal_run (this : nat) (m : Method) (w : World)
    (ctx : RpcContext) :
  is_terminal m = false ->
  contexts w !! this = Some ctx ->
  exists w',
    invoke this m w = Some (tt, w')
    /\ events w' = events w ++ nonterminal_call_events ctx m
    /\ contexts w' = contexts w
    /\ messages w' = messages w
    /\ FLAGS_v w' = FLAGS_v w
    /\ sockets w' = nonterminal_sockets ctx m (sockets w).
Proof.
  intros Hterm Hctx. destruct m; try discriminate Hterm; cbn [invoke];
    unfold request_pb, response_pb, user_credentials, remote_address,
      requestor_string, GetClientDeadline, trace, AddRpcSidecar,
      call_AddRpcSidecar, CloseConnection, bind, load_this, ret, shutdown;
    rewrite Hctx; cbn [nonterminal_call_events nonterminal_sockets].
  1-8: eexists; split; [reflexivity|]; cbn; rewrite ?app_nil_r;
       repeat split; reflexivity.
  unfold closed_sockets.
  destruct (sockets w !! connection_socket_GetFd (call_ ctx)) as [s|];
    [destruct (shutdown_socket (Z.lor SHUT_RD SHUT_WR) s)|];
    (eexists; split; [reflexivity|]); cbn; rewrite ?app_nil_r;
    repeat split; reflexivity.
Qed.

Lemma invoke_all_app (this : nat) (a b : list Method) (w : World) :
  invoke_all this (a ++ b) w =
    match invoke_all this a w with
    | Some (_, w') => invoke_all this b w'
    | None => None
    end.
Proof.
  revert w. induction a as [|m rest IH]; intros w; [reflexivity|].
  cbn [app invoke_all]. unfold bind.
  destruct (invoke this m w) as [[[] w1]|]; [apply IH | reflexivity].
Qed.

(** A run of methods that do not respond, on a live context. *)
Lemma nonterminals_run (this : nat) (ms : list Method) (w : World)
    (ctx : RpcContext) :
  Forall (fun m => is_terminal m = false) ms ->
  contexts w !! this = Some ctx ->
  exists w',
    invoke_all this ms w = Some (tt, w')
    /\ events w' = events w ++ flat_map (nonterminal_call_events ctx) ms
    /\ contexts w' = contexts w
    /\ messages w' = messages w
    /\ FLAGS_v w' = FLAGS_v w.
Proof.
  intros Hall. revert w. induction Hall as [|m rest Hm _ IH]; intros w Hctx.
  - exists w. cbn. rewrite app_nil_r. repeat split; reflexivity.
  - destruct (nonterminal_run this m w ctx Hm Hctx)
      as (w1 & Hrun & Hev & Hc & Hmsg & Hv & _).
    destruct (IH w1) as (w' & Hrest & Hev' & Hc' & Hmsg' & Hv').
    { rewrite Hc. exact Hctx. }
    exists w'. cbn [invoke_all flat_map]. unfold bind. rewrite Hrun.
    split; [exact Hrest|].
    split; [rewrite Hev', Hev, <- app_assoc; reflexivity|].
    repeat split; congruence.
Qed.

Lemma terminal_call_events_counts (w : World) (ctx : RpcContext) (m : Method)
    (handed : list Event) :
  terminal_call_events w ctx m = Some handed ->
  length (sends handed) = 1
  /\ latency_samples (handler_latency (metrics_ ctx)) handed = 1.
Proof.
  unfold latency_samples.
  destruct m; cbn [terminal_call_events]; try discriminate;
    try destruct (message_at w (response_pb_ ctx));
    try discriminate; intros [= <-]; cbn; rewrite Nat.eqb_refl;
    split; reflexivity.
Qed.

Lemma nonterminal_call_events_quiet (ctx : RpcContext) (m : Method)
    (h : Histogram) :
  sends (nonterminal_call_events ctx m) = []
  /\ latency_samples h (nonterminal_call_events ctx m) = 0.
Proof. destruct m; split; reflexivity. Qed.

Lemma nonterminal_call_events_all_quiet (ctx : RpcContext)
    (ms : list Method) (h : Histogram) :
  sends (flat_map (nonterminal_call_events ctx) ms) = []
  /\ latency_samples h (flat_map (nonterminal_call_events ctx) ms) = 0.
Proof.
  induction ms as [|m rest [IHs IHl]]; [split; reflexivity|].
  cbn [flat_map]. rewrite sends_app, latency_samples_app, IHs, IHl.
  destruct (nonterminal_call_events_quiet ctx m h) as [-> ->].
  split; reflexivity.
Qed.

Lemma message_at_same_messages (w w' : World) (p : MessagePtr) :
  messages w' = messages w -> message_at w' p = message_at w p.
Proof. intros Hm. destruct p; cbn; rewrite ?Hm; reflexivity. Qed.

Lemma terminal_call_events_same_messages (w w' : World) (ctx : RpcContext)
    (m : Method) :
  messages w' = messages w ->
  terminal_call_events w' ctx m = terminal_call_events w ctx m.
Proof.
  intros Hm. destruct m; cbn [terminal_call_events]; try reflexivity.
  rewrite (message_at_same_messages _ _ _ Hm). reflexivity.
Qed.

(** In every defined run of methods on a live context at most one of them
    is a terminal method, and it is the last; the call is handed one
    response and one latency sample if there is one and none otherwise, and
    the context is deleted exactly when it has responded. *)
Theorem at_most_one_response (this : nat) (ms : list Method) (w w' : World)
    (ctx : RpcContext) :
  contexts w !! this = Some ctx ->
  invoke_all this ms w = Some (tt, w') ->
  length (List.filter is_terminal ms) <= 1
  /\ events w' = events w ++ new_events w w'
  /\ length (sends (new_events w w')) = length (List.filter is_terminal ms)
  /\ latency_samples (handler_latency (metrics_ ctx)) (new_events w w')
     = length (List.filter is_terminal ms)
  /\ contexts w' !! this
     = match List.filter is_terminal ms with
       | [] => Some ctx
       | _ :: _ => None
       end
  /\ (forall pre m post,
        ms = pre ++ m :: post -> is_terminal m = true -> post = []).
Proof.
  intros Hctx Hrun.
  assert (Hshape : exists new,
    events w' = events w ++ new
    /\ length (List.filter is_terminal ms) <= 1
    /\ length (sends new) = length (List.filter is_terminal ms)
    /\ latency_samples (handler_latency (metrics_ ctx)) new
       = length (List.filter is_terminal ms)
    /\ contexts w' !! this
       = match List.filter is_terminal ms with
         | [] => Some ctx
         | _ :: _ => None
         end
    /\ (forall pre m post,
          ms = pre ++ m :: post -> is_terminal m = true -> post = [])).
  { revert w Hctx Hrun. induction ms as [|m rest IH]; intros w Hctx Hrun.
    - cbn [invoke_all] in Hrun. unfold ret in Hrun. injection Hrun as <-.
      exists []. rewrite app_nil_r. cbn. repeat split; try lia; try assumption.
      intros pre m post Heq. destruct pre; discriminate Heq.
    - cbn [invoke_all] in Hrun. unfold bind in Hrun.
      destruct (invoke this m w) as [[[] w1]|] eqn:Hm; [|discriminate].
      cbn [List.filter]. destruct (is_terminal m) eqn:Hterm.
      + pose proof (terminal_run this m w ctx Hterm Hctx) as Hone.
        destruct (terminal_call_events w ctx m) as [handed|] eqn:Hhanded;
          [|rewrite Hone in Hm; discriminate].
        destruct Hone as (new & Hdone & Hcall).
        rewrite Hdone in Hm. injection Hm as <-.
        destruct rest as [|m2 rest2].
        * cbn [invoke_all] in Hrun. unfold ret in Hrun.
          injection Hrun as <-. exists new.
          destruct (terminal_call_events_counts _ _ _ _ Hhanded)
            as [Hsend Hlat].
          rewrite <- Hcall, sends_call_events in Hsend.
          rewrite <- Hcall, latency_samples_call_events in Hlat.
          cbn [List.filter length].
          split; [reflexivity|]. split; [lia|].
          split; [exact Hsend|]. split; [exact Hlat|].
          split; [apply contexts_finished|].
          intros pre m' post Heq _.
          destruct pre as [|x pre]; [injection Heq as _ <-; reflexivity|].
          injection Heq as _ Heq. destruct pre; discriminate Heq.
        * exfalso. cbn [invoke_all] in Hrun. unfold bind in Hrun.
          rewrite (invoke_on_deleted this m2 _ (contexts_finished this new w))
            in Hrun.
          discriminate.
      + destruct (nonterminal_run this m w ctx Hterm Hctx)
          as (w1' & Hrun1 & Hev & Hc & _).
        rewrite Hrun1 in Hm. injection Hm as <-.
        destruct (IH w1') as (new & Hev' & Hle & Hsend & Hlat & Hlive & Hlast);
          [rewrite Hc; exact Hctx | exact Hrun |].
        exists (nonterminal_call_events ctx m ++ new).
        destruct (nonterminal_call_events_quiet ctx m
                    (handler_latency (metrics_ ctx))) as [Hq1 Hq2].
        split; [rewrite Hev', Hev, <- app_assoc; reflexivity|].
        split; [exact Hle|].
        split; [rewrite sends_app, Hq1; exact Hsend|].
        split; [rewrite latency_samples_app, Hq2; exact Hlat|].
        split; [exact Hlive|].
        intros pre m' post Heq Hterm'.
        destruct pre as [|x pre].
        * injection Heq as <- _. congruence.
        * injection Heq as _ Heq. exact (Hlast pre m' post Heq Hterm'). }
  destruct Hshape as (new & Hev & Hrest).
  assert (Hnew : new_events w w' = new)
    by (unfold new_events; rewrite Hev; apply drop_app_length).
  rewrite Hnew. tauto.
Qed.

(** Whatever methods that do not respond were called on a live context, a
    terminal method can still be called: a failure response always, a
    success response when the response payload is there.  It hands exactly
    one response to the call and deletes the context. *)
Theorem response_always_possible (this : nat) (ms : list Method) (m : Method)
    (w : World) (ctx : RpcContext) :
  contexts w !! this = Some ctx ->
  Forall (fun x => is_terminal x = false) ms ->
  is_terminal m = true ->
  m <> DoRespondSuccess \/ is_Some (message_at w (response_pb_ ctx)) ->
  exists w',
    invoke_all this (ms ++ [m]) w = Some (tt, w')
    /\ length (sends (new_events w w')) = 1
    /\ latency_samples (handler_latency (metrics_ ctx)) (new_events w w') = 1
    /\ contexts w' !! this = None.
Proof.
  intros Hctx Hquiet Hterm Hcan.
  destruct (nonterminals_run this ms w ctx Hquiet Hctx)
    as (w1 & Hrun1 & Hev1 & Hc1 & Hm1 & _).
  assert (Hctx1 : contexts w1 !! this = Some ctx) by (rewrite Hc1; exact Hctx).
  pose proof (terminal_run this m w1 ctx Hterm Hctx1) as Hone.
  rewrite (terminal_call_events_same_messages w w1 ctx m Hm1) in Hone.
  destruct (terminal_call_events w ctx m) as [handed|] eqn:Hhanded.
  - destruct Hone as (new & Hdone & Hcall).
    exists (finished this new w1).
    rewrite invoke_all_app, Hrun1. cbn [invoke_all]. unfold bind.
    rewrite Hdone. split; [reflexivity|].
    assert (Hnew : new_events w (finished this new w1)
                   = flat_map (nonterminal_call_events ctx) ms ++ new).
    { unfold new_events, finished. cbn. rewrite Hev1, <- app_assoc.
      apply drop_app_length. }
    rewrite Hnew, sends_app, latency_samples_app.
    destruct (nonterminal_call_events_all_quiet ctx ms
                (handler_latency (metrics_ ctx))) as [-> ->].
    destruct (terminal_call_events_counts _ _ _ _ Hhanded) as [Hsend Hlat].
    rewrite <- Hcall, sends_call_events in Hsend.
    rewrite <- Hcall, latency_samples_call_events in Hlat.
    split; [exact Hsend|]. split; [exact Hlat|]. apply contexts_finished.
  - exfalso. destruct m; try discriminate Hterm;
      cbn [terminal_call_events] in Hhanded; try discriminate Hhanded.
    destruct Hcan as [Hne|[resp Hresp]]; [contradiction|].
    rewrite Hresp in Hhanded. discriminate.
Qed.

(** The verbosity changes log lines and trace events only: at any two
    verbosities a method is defined or undefined alike, hands the same
    events to the call and leaves the same contexts, sockets and messages. *)
Theorem verbosity_changes_no_call_event (this : nat) (m : Method) (v : nat)
    (w : World) :
  match invoke this m w, invoke this m (with_verbosity v w) with
  | Some (_, w1), Some (_, w2) =>
      call_events (new_events w w1)
      = call_events (new_events (with_verbosity v w) w2)
      /\ contexts w1 = contexts w2
      /\ sockets w1 = sockets w2
      /\ messages w1 = messages w2
  | None, None => True
  | _, _ => False
  end.
Proof.
  destruct (contexts w !! this) as [ctx|] eqn:Hctx.
  2: { rewrite (invoke_on_deleted this m w Hctx).
       rewrite (invoke_on_deleted this m (with_verbosity v w) Hctx).
       exact I. }
  assert (Hctx' : contexts (with_verbosity v w) !! this = Some ctx)
    by exact Hctx.
  destruct (is_terminal m) eqn:Hterm.
  - pose proof (terminal_run this m w ctx Hterm Hctx) as H1.
    pose proof (terminal_run this m _ ctx Hterm Hctx') as H2.
    rewrite (terminal_call_events_same_messages w (with_verbosity v w) ctx m
               eq_refl) in H2.
    destruct (terminal_call_events w ctx m) as [handed|].
    + destruct H1 as (new1 & -> & Hc1). destruct H2 as (new2 & -> & Hc2).
      rewrite !new_events_finished, Hc1, Hc2. repeat split; reflexivity.
    + rewrite H1, H2. exact I.
  - destruct (nonterminal_run this m w ctx Hterm Hctx)
      as (w1 & -> & Hev1 & Hcx1 & Hm1 & _ & Hs1).
    destruct (nonterminal_run this m _ ctx Hterm Hctx')
      as (w2 & -> & Hev2 & Hcx2 & Hm2 & _ & Hs2).
    unfold new_events. rewrite Hev1, Hev2, !drop_app_length.
    rewrite Hcx1, Hcx2, Hm1, Hm2, Hs1, Hs2. repeat split; reflexivity.
Qed.

(** The constructor with payloads needs its request: the trace event
    dereferences the request although the log line before it tests both
    pointers for null.  With a request that is there, and a response that
    is null or there, it registers the context with the members it was
    given, writes one trace-span-begin event that carries the call and the
    request, and hands nothing to the call. *)
Theorem RpcContext_new_needs_its_request (this : nat) (call : InboundCall)
    (request response : MessagePtr) (metrics : RpcMethodMetrics)
    (w : World) :
  (message_at w request = None ->
   RpcContext_new this call request response metrics w = None)
  /\ (forall req,
        message_at w request = Some req ->
        response = nullptr \/ is_Some (message_at w response) ->
        exists w',
          RpcContext_new this call request response metrics w = Some (tt, w')
          /\ contexts w' =
               <[this := {| call_ := call; request_pb_ := request;
                            response_pb_ := response; metrics_ := metrics |}]>
                 (contexts w)
          /\ request_pb this w' = Some (request, w')
          /\ response_pb this w' = Some (response, w')
          /\ trace_begins (new_events w w') =
               [TraceEventAsyncBegin2 "rpc_call" "RPC" this
                  ("call", ArgString (call_ToString call))
                  ("request", ArgPb (TracePb req))]
          /\ call_events (new_events w w') = []
          /\ messages w' = messages w
          /\ sockets w' = sockets w).
Proof.
  split.
  - intros Hreq.
    unfold RpcContext_new, constructed, bind, VLOG4, bind, VLOG_IS_ON. cbn.
    destruct (Nat.leb 4 (FLAGS_v w)); cbn.
    + unfold DebugString_or_nullptr, bind, deref.
      destruct request; cbn in *; try discriminate Hreq;
        [destruct response; cbn|rewrite Hreq; reflexivity].
      * unfold emit, ret, deref. cbn. reflexivity.
      * unfold emit, ret, deref. cbn. reflexivity.
      * unfold deref. cbn.
        destruct (messages w !! addr); reflexivity.
    + unfold ret, deref. cbn.
      assert (Hsame : message_at
                (with_contexts
                   (<[this := {| call_ := call; request_pb_ := request;
                                 response_pb_ := response;
                                 metrics_ := metrics |}]> (contexts w)) w)
                request = None)
        by (rewrite <- Hreq; destruct request; reflexivity).
      rewrite Hsame. reflexivity.
  - intros req Hreq Hresp.
    set (ctx := {| call_ := call; request_pb_ := request;
                   response_pb_ := response; metrics_ := metrics |}).
    set (w0 := with_contexts (<[this := ctx]> (contexts w)) w).
    assert (Hreq0 : forall es, message_at (with_events es w0) request = Some req)
      by (intros es; rewrite <- Hreq; destruct request; reflexivity).
    assert (Hresp0 : response = nullptr
                     \/ exists resp, forall es,
                          message_at (with_events es w0) response = Some resp).
    { destruct Hresp as [->|[resp Hresp]]; [left; reflexivity|].
      right. exists resp. intros es. rewrite <- Hresp.
      destruct response; reflexivity. }
    assert (Hrun : exists line,
      RpcContext_new this call request response metrics w =
        Some (tt, with_events
                    (events w ++ verbose_line w line
                     ++ [TraceEventAsyncBegin2 "rpc_call" "RPC" this
                           ("call", ArgString (call_ToString call))
                           ("request", ArgPb (TracePb req))]) w0)).
    { unfold RpcContext_new, constructed, bind, VLOG4, bind, VLOG_IS_ON,
        verbose_line. fold ctx. cbn. fold w0.
      destruct (Nat.leb 4 (FLAGS_v w)); cbn.
      - assert (Hd : forall p m (u : World),
                  message_at u p = Some m -> p <> nullptr ->
                  DebugString_or_nullptr p u = Some (DebugString m, u)).
        { intros p m u Hp Hn. unfold DebugString_or_nullptr, bind, deref, ret.
          destruct p; [contradiction| |]; rewrite Hp; reflexivity. }
        assert (Hrn : request <> nullptr)
          by (intros ->; discriminate Hreq).
        pose proof (Hreq0 (events w)) as Hr0.
        change (with_events (events w) w0) with w0 in Hr0.
        rewrite (Hd request req w0 Hr0 Hrn).
        destruct Hresp0 as [->|[resp Hresp0]].
        + cbn. unfold ret, emit, deref, bind. cbn.
          rewrite (Hreq0 _). cbn. eexists.
          unfold with_events. cbn. rewrite <- app_assoc. reflexivity.
        + assert (Hsn : response <> nullptr).
          { intros ->. specialize (Hresp0 []). discriminate Hresp0. }
          pose proof (Hresp0 (events w)) as Hs0.
          change (with_events (events w) w0) with w0 in Hs0.
          rewrite (Hd response resp w0 Hs0 Hsn).
          unfold ret, emit, deref, bind. cbn.
          rewrite (Hreq0 _). cbn. eexists.
          unfold with_events. cbn. rewrite <- app_assoc. reflexivity.
      - unfold ret, emit, deref, bind. cbn.
        pose proof (Hreq0 (events w)) as Hr0.
        change (with_events (events w) w0) with w0 in Hr0.
        rewrite Hr0. exists "". reflexivity. }
    destruct Hrun as (line & Hrun). eexists. split; [exact Hrun|].
    assert (Hlive : contexts
              (with_events
                 (events w ++ verbose_line w line
                  ++ [TraceEventAsyncBegin2 "rpc_call" "RPC" this
                        ("call", ArgString (call_ToString call))
                        ("request", ArgPb (TracePb req))]) w0) !! this
            = Some ctx) by (cbn; apply lookup_insert_eq).
    destruct (accessor_reads _ _ _ Hlive) as [Hra Hsa].
    split; [reflexivity|]. split; [exact Hra|]. split; [exact Hsa|].
    unfold new_events. cbn [events with_events]. rewrite drop_app_length.
    unfold verbose_line.
    destruct (Nat.leb 4 (FLAGS_v w)); repeat split; reflexivity.
Qed.

(** A context for a method without arguments, from construction to its
    success response: both steps are always defined, the call is handed the
    latency record and the empty message, the trace span is opened and
    closed under the context's address, and no context is left behind. *)
Theorem noargs_context_lifecycle (this : nat) (call : InboundCall)
    (metrics : RpcMethodMetrics) (w : World) :
  contexts w !! this = None ->
  exists w1 w2,
    RpcContext_new_noargs this call metrics w = Some (tt, w1)
    /\ RespondSuccess this w1 = Some (tt, w2)
    /\ contexts w2 = contexts w
    /\ messages w2 = messages w
    /\ sockets w2 = sockets w
    /\ call_events (new_events w w2) =
         [CallRecordHandlingCompleted call (handler_latency metrics);
          CallRespondSuccess call EmptyMessagePB]
    /\ trace_begins (new_events w w2) =
         [TraceEventAsyncBegin2 "rpc_call" "RPC" this
            ("call", ArgString (call_ToString call))
            ("request", ArgPb (TracePb EmptyMessagePB))]
    /\ trace_ends (new_events w w2) =
         [TraceEventAsyncEnd2 "rpc_call" "RPC" this
            ("response", ArgPb (TracePb EmptyMessagePB))
            ("trace", ArgString (DumpToString (call_trace call) true))].
Proof.
  intros Hfresh.
  set (ctx := {| call_ := call; request_pb_ := EMPTY_MESSAGE;
                 response_pb_ := EMPTY_MESSAGE; metrics_ := metrics |}).
  eexists. eexists.
  split; [exact (constructed_noargs_run this call metrics w)|].
  split.
  { apply (RespondSuccess_run this _ ctx EmptyMessagePB);
      [cbn; apply lookup_insert_eq | reflexivity]. }
  unfold finished, payloads_released, new_events, verbose_line.
  cbn [contexts messages sockets events FLAGS_v with_events with_contexts
       with_messages].
  rewrite (delete_insert_id (contexts w) this ctx Hfresh).
  rewrite (lookup_insert_eq (contexts w) this ctx).
  split; [reflexivity|]. split; [reflexivity|]. split; [reflexivity|].
  rewrite <- !app_assoc, drop_app_length.
  destruct (Nat.leb 4 (FLAGS_v w)); repeat split; reflexivity.
Qed.

(** [CloseConnection] ignores what [shutdown] returns and does not end the
    call: on a live context it is always defined, a descriptor without a
    socket changes nothing, a second call changes nothing more, and the
    context stays live, so that a response can still be handed to the call
    afterwards. *)
Theorem CloseConnection_neither_fails_nor_finalizes (this : nat) (w : World)
    (ctx : RpcContext) :
  contexts w !! this = Some ctx ->
  exists w1,
    CloseConnection this w = Some (tt, w1)
    /\ (sockets w !! connection_socket_GetFd (call_ ctx) = None -> w1 = w)
    /\ CloseConnection this w1 = Some (tt, w1)
    /\ contexts w1 !! this = Some ctx
    /\ forall status, exists w2,
         RespondFailure this status w1 = Some (tt, w2)
         /\ sends (new_events w w2) =
              [CallRespondFailure (call_ ctx) ERROR_APPLICATION status]
         /\ contexts w2 !! this = None.
Proof.
  intros Hctx.
  assert (Hrespond : forall w1,
    contexts w1 !! this = Some ctx -> events w1 = events w ->
    forall status, exists w2,
      RespondFailure this status w1 = Some (tt, w2)
      /\ sends (new_events w w2) =
           [CallRespondFailure (call_ ctx) ERROR_APPLICATION status]
      /\ contexts w2 !! this = None).
  { intros w1 Hctx1 Hev status. eexists.
    split; [exact (RespondFailure_run _ _ _ _ Hctx1)|].
    split; [|apply contexts_finished].
    unfold new_events, finished.
    cbn [events with_events with_contexts with_messages].
    rewrite Hev, drop_app_length. unfold verbose_line.
    destruct (Nat.leb 4 (FLAGS_v w1)); reflexivity. }
  destruct (sockets w !! connection_socket_GetFd (call_ ctx)) as [s|] eqn:Hsock.
  - eexists. split; [exact (CloseConnection_run _ _ _ _ Hctx Hsock)|].
    split; [discriminate|].
    split.
    { rewrite (CloseConnection_run this _ ctx
                 {| read_open := read_open s; write_open := false |});
        [|exact Hctx|cbn; apply lookup_insert_eq].
      unfold with_sockets. cbn. rewrite insert_insert_eq. reflexivity. }
    split; [exact Hctx|]. apply Hrespond; [exact Hctx | reflexivity].
  - assert (Hrun : CloseConnection this w = Some (tt, w)).
    { unfold CloseConnection, bind, load_this, shutdown.
      rewrite Hctx, Hsock. reflexivity. }
    exists w. split; [exact Hrun|]. split; [reflexivity|].
    split; [exact Hrun|]. split; [exact Hctx|].
    apply Hrespond; [exact Hctx | reflexivity].
Qed.

(** ** Writing a traced message more than once *)

Lemma TruncateFields_names (m : Message) (max_len : nat) :
  map fst (TruncateFields m max_len) = map fst m.
Proof.
  unfold TruncateFields. rewrite List.map_map. apply List.map_ext.
  intros nv. reflexivity.
Qed.

(** [AppendAsTraceFormat] changes the tracer only the first time: a second
    write leaves the tracer as the first one left it and appends the same
    text, and the fields keep their names. *)
Theorem AppendAsTraceFormat_again (t : PbTracer) (out out' : string) :
  let once := AppendAsTraceFormat t out in
  let twice := AppendAsTraceFormat (fst once) out' in
  fst twice = fst once
  /\ snd once = out +:+ JsonWriter_Protobuf (msg_ (fst once))
  /\ snd twice = out' +:+ JsonWriter_Protobuf (msg_ (fst once))
  /\ map fst (msg_ (fst once)) = map fst (msg_ t).
Proof.
  unfold AppendAsTraceFormat. cbn [fst snd msg_].
  rewrite (TruncateFields_short _ _
             (TruncateFields_strings (msg_ t) kMaxFieldLengthToTrace)).
  repeat split. apply TruncateFields_names.
Qed.

(** ** [Panic] *)

Inductive LogSeverity : Type := GLOG_ERROR | GLOG_FATAL.

(** A message written through [google::LogMessage] with an explicit file
    and line. *)
Record LogMessage : Type := {
  log_file : string;
  log_line : Z;
  log_severity : LogSeverity;
  log_text : string
}.

(** [RpcContext::Panic(filepath, line_number, message)]: the messages
    written, the last of which ends the process; there is no world
    afterwards.  [Trace::Dump] is taken to write what [DumpToString]
    returns, and the call always has a trace, so that the test [if (t)]
    holds. *)
Definition Panic (this : nat) (filepath : string) (line_number : Z)
    (message : string) (w : World) : option (list LogMessage) :=
  let MY_ERROR := fun text =>
    {| log_file := filepath; log_line := line_number;
       log_severity := GLOG_ERROR; log_text := text |} in
  let MY_FATAL := fun text =>
    {| log_file := filepath; log_line := line_number;
       log_severity := GLOG_FATAL; log_text := text |} in
  match contexts w !! this with
  | None => None
  | Some ctx =>
      match message_at w (request_pb_ ctx) with
      | None => None
      | Some req =>
          let t := Some (call_trace (call_ ctx)) in
          Some ([MY_ERROR ("Panic handling " +:+ call_ToString (call_ ctx)
                           +:+ ": " +:+ message);
                 MY_ERROR ("Request:" +:+ endl +:+ DebugString req)]
                ++ match t with
                   | Some t => [MY_ERROR "RPC trace:";
                                MY_ERROR (DumpToString t true)]
                   | None => []
                   end
                ++ [MY_FATAL "Exiting due to panic."])
      end
  end.

Definition is_fatal (l : LogMessage) : bool :=
  match log_severity l with
  | GLOG_FATAL => true
  | GLOG_ERROR => false
  end.

(** [Panic] reports under the caller's file and line: every message it
    writes carries them.  On a context built without payloads, after any
    defined run of methods that left it live, it is defined: it names the
    call and the message first, and its last message, and only that one,
    is fatal. *)
Theorem Panic_reports_at_the_caller (this : nat) (call : InboundCall)
    (metrics : RpcMethodMetrics) (ms : list Method) (filepath : string)
    (line_number : Z) (message : string) (w w1 w2 : World) :
  RpcContext_new_noargs this call metrics w = Some (tt, w1) ->
  invoke_all this ms w1 = Some (tt, w2) ->
  is_Some (contexts w2 !! this) ->
  exists reports last,
    Panic this filepath line_number message w2 = Some (reports ++ [last])
    /\ Forall (fun l => log_file l = filepath /\ log_line l = line_number)
         (reports ++ [last])
    /\ Forall (fun l => is_fatal l = false) reports
    /\ is_fatal last = true
    /\ log_text <$> head reports
       = Some ("Panic handling " +:+ call_ToString call +:+ ": " +:+ message).
Proof.
  intros Hnew Hrun [ctx2 Hlive].
  rewrite (constructed_noargs_run this call metrics w) in Hnew.
  injection Hnew as <-.
  set (ctx := {| call_ := call; request_pb_ := EMPTY_MESSAGE;
                 response_pb_ := EMPTY_MESSAGE; metrics_ := metrics |}) in *.
  destruct (invoke_all_context _ _ _ _ Hrun) as [Hsame|Hgone];
    [|rewrite Hgone in Hlive; discriminate].
  cbn [contexts with_events with_contexts] in Hsame.
  rewrite lookup_insert_eq in Hsame.
  unfold Panic. rewrite Hsame. cbn [request_pb_ ctx message_at EMPTY_MESSAGE].
  eexists [_; _; _; _]. eexists. split; [reflexivity|].
  split; [repeat constructor|].
  split; [repeat constructor|].
  split; reflexivity.
Qed.

(** With a request payload that is not there [Panic] has no defined
    behaviour: it prints the request unguarded. *)
Lemma Panic_needs_its_request (this : nat) (filepath : string)
    (line_number : Z) (message : string) (w : World) (ctx : RpcContext) :
  contexts w !! this = Some ctx ->
  message_at w (request_pb_ ctx) = None ->
  Panic this filepath line_number message w = None.
Proof. intros Hctx Hreq. unfold Panic. rewrite Hctx, Hreq. reflexivity. Qed.

(** What the destruction of the payload members does to the heap. *)
Lemma destroyed_other (p : MessagePtr) (heap : gmap nat Message) (a : nat) :
  HeapMessage a <> p -> destroyed p heap !! a = heap !! a.
Proof.
  destruct p as [| |b]; intros Hne; cbn [destroyed]; try reflexivity.
  apply lookup_delete_ne. congruence.
Qed.

Lemma released_other (ctx : RpcContext) (heap : gmap nat Message) (a : nat) :
  HeapMessage a <> request_pb_ ctx ->
  HeapMessage a <> response_pb_ ctx ->
  released ctx heap !! a = heap !! a.
Proof.
  intros Hreq Hresp. unfold released.
  rewrite (destroyed_other _ _ _ Hreq). apply destroyed_other, Hresp.
Qed.

Lemma released_own (ctx : RpcContext) (heap : gmap nat Message) (a : nat) :
  HeapMessage a = request_pb_ ctx \/ HeapMessage a = response_pb_ ctx ->
  released ctx heap !! a = None.
Proof.
  unfold released. intros [<- | <-].
  - cbn [destroyed]. apply lookup_delete_eq.
  - destruct (request_pb_ ctx) as [| |b]; cbn [destroyed];
      try apply lookup_delete_eq.
    destruct (decide (b = a)) as [->|Hne].
    + apply lookup_delete_eq.
    + rewrite lookup_delete_ne by exact Hne. apply lookup_delete_eq.
Qed.

Lemma messages_finished (this : nat) (new : list Event) (w : World)
    (ctx : RpcContext) :
  contexts w !! this = Some ctx ->
  messages (finished this new w) = released ctx (messages w).
Proof.
  intros Hctx. unfold finished, payloads_released.
  cbn [messages with_contexts with_messages with_events contexts].
  rewrite Hctx. reflexivity.
Qed.

(** A method called on one context keeps to it.  Every other context and
    the verbosity are as before, no socket but the one of its call changes,
    and the events written before stay in place.  A message that is not a
    payload of the context is as before; a method that does not respond
    leaves the payloads too, and a terminal method destroys them with the
    context, which owns them. *)
Theorem methods_keep_to_their_context (this : nat) (m : Method)
    (w w' : World) (ctx : RpcContext) :
  contexts w !! this = Some ctx ->
  invoke this m w = Some (tt, w') ->
  (forall other, other <> this -> contexts w' !! other = contexts w !! other)
  /\ (forall a, HeapMessage a <> request_pb_ ctx ->
                HeapMessage a <> response_pb_ ctx ->
                messages w' !! a = messages w !! a)
  /\ (is_terminal m = false -> messages w' = messages w)
  /\ (is_terminal m = true ->
      forall a, HeapMessage a = request_pb_ ctx
                \/ HeapMessage a = response_pb_ ctx ->
                messages w' !! a = None)
  /\ FLAGS_v w' = FLAGS_v w
  /\ (forall fd, fd <> connection_socket_GetFd (call_ ctx) ->
                 sockets w' !! fd = sockets w !! fd)
  /\ events w' = events w ++ new_events w w'.
Proof.
  intros Hctx Hrun. destruct (is_terminal m) eqn:Hterm.
  - pose proof (terminal_run this m w ctx Hterm Hctx) as Hone.
    destruct (terminal_call_events w ctx m);
      [|rewrite Hone in Hrun; discriminate].
    destruct Hone as (new & Hdone & _). rewrite Hdone in Hrun.
    injection Hrun as <-.
    rewrite new_events_finished, (messages_finished this new w ctx Hctx).
    split.
    { intros other Hne. unfold finished. cbn.
      apply lookup_delete_ne. congruence. }
    split; [intros a; apply released_other|].
    split; [discriminate|].
    split; [intros _ a; apply released_own|].
    repeat split; reflexivity.
  - destruct (nonterminal_run this m w ctx Hterm Hctx)
      as (w1 & Hrun1 & Hev & Hc & Hm & Hv & Hs).
    rewrite Hrun1 in Hrun. injection Hrun as <-.
    unfold new_events. rewrite Hev, drop_app_length, Hc, Hm, Hv, Hs.
    split; [reflexivity|]. split; [reflexivity|]. split; [reflexivity|].
    split; [discriminate|]. split; [reflexivity|]. split; [|reflexivity].
    intros fd Hne. destruct m; cbn [nonterminal_sockets]; try reflexivity.
    unfold closed_sockets.
    destruct (sockets w !! connection_socket_GetFd (call_ ctx)) as [s|];
      [|reflexivity].
    destruct (shutdown_socket (Z.lor SHUT_RD SHUT_WR) s); [|reflexivity].
    apply lookup_insert_ne. congruence.
Qed.

End WithLibrary.

(** ** The operations on a sample call *)

Definition sample_call : InboundCall := {|
  call_id := 1;
  remote_method_service_name := "yb.tserver.TabletServerService";
  call_ToString := "Call yb.tserver.TabletServerService.Write from 10.0.0.7:41000";
  call_user_credentials := {| UserCredentials_ToString := "{real_user=yugabyte}" |};
  call_remote_address := {| Sockaddr_ToString := "10.0.0.7:41000" |};
  call_GetClientDeadline := 60000;
  call_trace := {| DumpToString := fun _ => "" |};
  connection_socket_GetFd := 5
|}.

Definition sample_request : Message :=
  [("tablet_id", FString "test_tablet_locations"); ("row_count", FInt 1)].

Definition sample_response : Message := [("rows_written", FInt 1)].

Definition sample_context : RpcContext := {|
  call_ := sample_call;
  request_pb_ := HeapMessage 1;
  response_pb_ := HeapMessage 2;
  metrics_ := {| handler_latency := 42 |}
|}.

Definition sample_world : World := {|
  FLAGS_v := 0;
  messages := <[1 := sample_request]> {[2 := sample_response]};
  contexts := {[100 := sample_context]};
  sockets := {[5%Z := {| read_open := true; write_open := true |}]};
  events := []
|}.

Definition sample_DebugString (m : Message) : string := "<message>".

(** A string of [n] characters, and a message with a long value nested in
    it. *)
Fixpoint repeated (c : ascii) (n : nat) : string :=
  match n with
  | O => EmptyString
  | S k => String c (repeated c k)
  end.

Definition sample_long_message : Message :=
  [("key", FString "k1");
   ("row", FMessage [("value", FString (repeated "x"%char 150));
                     ("version", FInt 3)])].

(** A stand-in for the JSON writer: the strings of the message, one after
    the other. *)
Definition sample_JsonWriter (m : Message) : string :=
  fold_right String.append EmptyString (message_strings m).

Definition sample_status : Status :=
  {| Status_ToString := "Invalid argument: no such tablet" |}.

Lemma RespondSuccess_records_once_sends_once_witness :
  contexts sample_world !! 100 = Some sample_context
  /\ message_at sample_world (response_pb_ sample_context)
     = Some sample_response
  /\ exists w',
       RespondSuccess sample_DebugString 100 sample_world = Some (tt, w')
       /\ events w' = events sample_world ++ new_events sample_world w'
       /\ latency_samples 42 (new_events sample_world w') = 1
       /\ sends (new_events sample_world w')
          = [CallRespondSuccess sample_call sample_response]
       /\ contexts w' !! 100 = None
       /\ RespondSuccess sample_DebugString 100 w' = None
       /\ (forall status, RespondFailure 100 status w' = None)
       /\ (forall err status, RespondRpcFailure 100 err status w' = None)
       /\ (forall error_ext_id message app_error_pb,
             RespondApplicationError sample_DebugString
               (fun _ _ pb => pb) 100 error_ext_id message app_error_pb w'
             = None).
Proof.
  split; [reflexivity|]. split; [reflexivity|].
  destruct (RespondSuccess_records_once_sends_once sample_DebugString
              (fun _ _ pb => pb) 100 sample_world sample_context
              sample_response eq_refl eq_refl) as (w' & H).
  exists w'. exact H.
Defined.

Lemma RespondApplicationError_trace_end_needs_verbosity_witness :
  contexts sample_world !! 100 = Some sample_context
  /\ exists w',
       RespondApplicationError sample_DebugString (fun _ _ pb => pb) 100 7
         "quota exceeded" sample_response sample_world = Some (tt, w')
       /\ trace_ends (new_events sample_world w') = []
       /\ (FLAGS_v sample_world < 4 ->
           new_events sample_world w' =
             [CallRecordHandlingCompleted sample_call 42;
              CallRespondApplicationError sample_call 7 "quota exceeded"
                sample_response])
       /\ contexts w' !! 100 = None.
Proof.
  split; [reflexivity|].
  apply (RespondApplicationError_trace_end_needs_verbosity sample_DebugString
           (fun _ _ pb => pb) 100 sample_world sample_context 7
           "quota exceeded" sample_response). reflexivity.
Defined.

Lemma terminal_responds_once_witness :
  is_terminal (DoRespondRpcFailure ERROR_INVALID_REQUEST sample_status) = true
  /\ contexts sample_world !! 100 = Some sample_context
  /\ exists w',
       invoke sample_DebugString (fun _ _ pb => pb) 100
         (DoRespondRpcFailure ERROR_INVALID_REQUEST sample_status) sample_world
       = Some (tt, w')
       /\ latency_samples 42 (new_events sample_world w') = 1
       /\ length (sends (new_events sample_world w')) = 1
       /\ contexts w' !! 100 = None.
Proof.
  split; [reflexivity|]. split; [reflexivity|].
  eexists. split; [reflexivity|].
  apply (terminal_responds_once sample_DebugString (fun _ _ pb => pb) 100
           (DoRespondRpcFailure ERROR_INVALID_REQUEST sample_status)
           sample_world _ sample_context); reflexivity.
Defined.

Lemma siblings_emit_trace_end_witness :
  contexts sample_world !! 100 = Some sample_context
  /\ forall w',
       RespondFailure 100 sample_status sample_world = Some (tt, w') ->
       trace_ends (new_events sample_world w') =
         [TraceEventAsyncEnd2 "rpc_call" "RPC" 100
            ("status", ArgString (Status_ToString sample_status))
            ("trace", ArgString (trace_dump sample_context))].
Proof.
  split; [reflexivity|].
  destruct (siblings_emit_trace_end sample_DebugString 100 sample_world
              sample_context eq_refl) as (_ & Hfail & _).
  exact (Hfail sample_status).
Defined.

Lemma AppendAsTraceFormat_truncates_fields_witness :
  Forall (fun s => String.length s <= 100) (message_strings sample_request)
  /\ msg_ (fst (AppendAsTraceFormat sample_JsonWriter
                  (TracePb sample_request) "")) = sample_request
  /\ msg_ (fst (AppendAsTraceFormat sample_JsonWriter
                  (TracePb sample_long_message) "")) =
       [("key", FString "k1");
        ("row", FMessage [("value", FString (repeated "x"%char 100));
                          ("version", FInt 3)])]
  /\ String.length (snd (AppendAsTraceFormat sample_JsonWriter
                            (TracePb sample_long_message) "")) = 102.
Proof.
  assert (Hshort : Forall (fun s => String.length s <= 100)
                     (message_strings sample_request))
    by (repeat constructor; cbn; lia).
  split; [exact Hshort|].
  split.
  - exact (proj2 (proj2 (proj2 (proj2 (proj2
      (AppendAsTraceFormat_truncates_fields sample_JsonWriter sample_request
         ""))))) Hshort).
  - split; reflexivity.
Defined.

(** A request with a value of 150 characters, about to be dispatched. *)
Definition sample_dispatch_world : World := {|
  FLAGS_v := 0;
  messages := {[3 := sample_long_message]};
  contexts := ∅;
  sockets := {[5%Z := {| read_open := true; write_open := true |}]};
  events := []
|}.

(** Against claim C6 as the spec words it: the constructor's trace-span-begin
    event captures the request in full.  The tracer it holds retains the
    value of 150 characters, above the limit of 100. *)
Lemma trace_capture_retains_long_fields :
  exists w',
    RpcContext_new sample_DebugString 200 sample_call (HeapMessage 3) nullptr
      {| handler_latency := 42 |} sample_dispatch_world = Some (tt, w')
    /\ retained_strings (new_events sample_dispatch_world w')
       = ["k1"; repeated "x"%char 150]
    /\ String.length (repeated "x"%char 150) = 150
    /\ ~ Forall (fun s => String.length s <= kMaxFieldLengthToTrace)
           (retained_strings (new_events sample_dispatch_world w')).
Proof.
  eexists. split; [reflexivity|]. split; [reflexivity|].
  split; [reflexivity|].
  intros Hall. apply Forall_cons_iff in Hall as [_ Hall].
  apply Forall_cons_iff in Hall as [Hlong _].
  vm_compute in Hlong. lia.
Qed.

Lemma requestor_string_is_credentials_at_address_witness :
  contexts sample_world !! 100 = Some sample_context
  /\ exists creds addr,
       user_credentials 100 sample_world = Some (creds, sample_world)
       /\ remote_address 100 sample_world = Some (addr, sample_world)
       /\ requestor_string 100 sample_world =
            Some (UserCredentials_ToString creds +:+ " at "
                  +:+ Sockaddr_ToString addr, sample_world).
Proof.
  split; [reflexivity|].
  apply (requestor_string_is_credentials_at_address 100 sample_world
           sample_context). reflexivity.
Defined.

Lemma CloseConnection_shuts_down_write_only_witness :
  contexts sample_world !! 100 = Some sample_context
  /\ sockets sample_world !! 5%Z
     = Some {| read_open := true; write_open := true |}
  /\ exists w',
       CloseConnection 100 sample_world = Some (tt, w')
       /\ Z.lor SHUT_RD SHUT_WR = SHUT_WR
       /\ sockets w' !! 5%Z
          = Some {| read_open := true; write_open := false |}
       /\ events w' = events sample_world
       /\ contexts w' = contexts sample_world.
Proof.
  split; [reflexivity|]. split; [reflexivity|].
  apply (CloseConnection_shuts_down_write_only 100 sample_world sample_context
           {| read_open := true; write_open := true |});
    reflexivity.
Defined.

Lemma noargs_payloads_are_the_empty_message_witness :
  exists w',
    RpcContext_new_noargs sample_DebugString 200 sample_call
      {| handler_latency := 42 |} sample_world = Some (tt, w')
    /\ request_pb 200 w' = Some (EMPTY_MESSAGE, w')
    /\ response_pb 200 w' = Some (EMPTY_MESSAGE, w')
    /\ EMPTY_MESSAGE <> nullptr
    /\ (forall v, message_at v EMPTY_MESSAGE = Some EmptyMessagePB)
    /\ (forall ms w'' p v,
          invoke_all sample_DebugString (fun _ _ pb => pb) 200 ms w'
          = Some (tt, w'') ->
          request_pb 200 w'' = Some (p, v)
          \/ response_pb 200 w'' = Some (p, v) ->
          p = EMPTY_MESSAGE).
Proof.
  apply (noargs_payloads_are_the_empty_message sample_DebugString
           (fun _ _ pb => pb) 200 sample_call {| handler_latency := 42 |}
           sample_world).
Defined.

Lemma RespondFailure_fixed_code_RespondRpcFailure_given_code_witness :
  contexts sample_world !! 100 = Some sample_context
  /\ (exists w',
        RespondFailure 100 sample_status sample_world = Some (tt, w')
        /\ sends (new_events sample_world w') =
             [CallRespondFailure sample_call ERROR_APPLICATION sample_status])
  /\ (exists w',
        RespondRpcFailure 100 ERROR_SERVER_TOO_BUSY sample_status sample_world
        = Some (tt, w')
        /\ sends (new_events sample_world w') =
             [CallRespondFailure sample_call ERROR_SERVER_TOO_BUSY
                sample_status]).
Proof.
  split; [reflexivity|].
  destruct (RespondFailure_fixed_code_RespondRpcFailure_given_code 100
              sample_world sample_context eq_refl) as (Hfail & Hrpc & _).
  split; [exact (Hfail sample_status)|].
  exact (Hrpc ERROR_SERVER_TOO_BUSY sample_status).
Defined.

(** A handler's calls on the sample context. *)
Definition sample_calls : list Method :=
  [DoRequestorString; DoAddRpcSidecar []; DoGetClientDeadline;
   DoCloseConnection].

Lemma at_most_one_response_witness :
  contexts sample_world !! 100 = Some sample_context
  /\ exists w',
       invoke_all sample_DebugString (fun _ _ pb => pb) 100
         (sample_calls ++ [DoRespondFailure sample_status]) sample_world
       = Some (tt, w')
       /\ length (sends (new_events sample_world w')) = 1
       /\ contexts w' !! 100 = None.
Proof.
  split; [reflexivity|]. eexists. split; [reflexivity|].
  destruct (at_most_one_response sample_DebugString (fun _ _ pb => pb) 100
              (sample_calls ++ [DoRespondFailure sample_status])
              sample_world _ sample_context eq_refl eq_refl)
    as (_ & _ & Hsend & _ & Hgone & _).
  split; [exact Hsend | exact Hgone].
Defined.

Lemma response_always_possible_witness :
  contexts sample_world !! 100 = Some sample_context
  /\ Forall (fun x => is_terminal x = false) sample_calls
  /\ is_terminal DoRespondSuccess = true
  /\ is_Some (message_at sample_world (response_pb_ sample_context))
  /\ exists w',
       invoke_all sample_DebugString (fun _ _ pb => pb) 100
         (sample_calls ++ [DoRespondSuccess]) sample_world = Some (tt, w')
       /\ length (sends (new_events sample_world w')) = 1
       /\ latency_samples 42 (new_events sample_world w') = 1
       /\ contexts w' !! 100 = None.
Proof.
  assert (Hquiet : Forall (fun x => is_terminal x = false) sample_calls)
    by (repeat constructor).
  assert (Hthere : is_Some (message_at sample_world
                              (response_pb_ sample_context)))
    by (exists sample_response; reflexivity).
  split; [reflexivity|]. split; [exact Hquiet|]. split; [reflexivity|].
  split; [exact Hthere|].
  exact (response_always_possible sample_DebugString (fun _ _ pb => pb) 100
           sample_calls DoRespondSuccess sample_world sample_context
           eq_refl Hquiet eq_refl (or_intror Hthere)).
Defined.

Lemma RpcContext_new_needs_its_request_witness :
  RpcContext_new sample_DebugString 200 sample_call nullptr (HeapMessage 2)
    {| handler_latency := 42 |} sample_world = None
  /\ exists w',
       RpcContext_new sample_DebugString 200 sample_call (HeapMessage 1)
         nullptr {| handler_latency := 42 |} sample_world = Some (tt, w')
       /\ request_pb 200 w' = Some (HeapMessage 1, w')
       /\ response_pb 200 w' = Some (nullptr, w').
Proof.
  split.
  - exact (proj1 (RpcContext_new_needs_its_request sample_DebugString 200
                    sample_call nullptr (HeapMessage 2)
                    {| handler_latency := 42 |} sample_world) eq_refl).
  - destruct (proj2 (RpcContext_new_needs_its_request sample_DebugString 200
                       sample_call (HeapMessage 1) nullptr
                       {| handler_latency := 42 |} sample_world)
                sample_request eq_refl (or_introl eq_refl))
      as (w' & Hrun & _ & Hreq & Hresp & _).
    exists w'. auto.
Defined.

Lemma noargs_context_lifecycle_witness :
  contexts sample_world !! 200 = None
  /\ exists w1 w2,
       RpcContext_new_noargs sample_DebugString 200 sample_call
         {| handler_latency := 42 |} sample_world = Some (tt, w1)
       /\ RespondSuccess sample_DebugString 200 w1 = Some (tt, w2)
       /\ contexts w2 = contexts sample_world
       /\ call_events (new_events sample_world w2) =
            [CallRecordHandlingCompleted sample_call 42;
             CallRespondSuccess sample_call EmptyMessagePB].
Proof.
  split; [reflexivity|].
  destruct (noargs_context_lifecycle sample_DebugString 200 sample_call
              {| handler_latency := 42 |} sample_world eq_refl)
    as (w1 & w2 & Hnew & Hrun & Hctx & _ & _ & Hcall & _).
  exists w1, w2. auto.
Defined.

Lemma CloseConnection_neither_fails_nor_finalizes_witness :
  contexts sample_world !! 100 = Some sample_context
  /\ exists w1,
       CloseConnection 100 sample_world = Some (tt, w1)
       /\ CloseConnection 100 w1 = Some (tt, w1)
       /\ contexts w1 !! 100 = Some sample_context
       /\ exists w2,
            RespondFailure 100 sample_status w1 = Some (tt, w2)
            /\ sends (new_events sample_world w2) =
                 [CallRespondFailure sample_call ERROR_APPLICATION
                    sample_status]
            /\ contexts w2 !! 100 = None.
Proof.
  split; [reflexivity|].
  destruct (CloseConnection_neither_fails_nor_finalizes 100 sample_world
              sample_context eq_refl)
    as (w1 & Hrun & _ & Hagain & Hlive & Hrespond).
  exists w1. repeat split; try assumption. exact (Hrespond sample_status).
Defined.

Lemma Panic_reports_at_the_caller_witness :
  exists w1 reports last,
    RpcContext_new_noargs sample_DebugString 200 sample_call
      {| handler_latency := 42 |} sample_world = Some (tt, w1)
    /\ Panic sample_DebugString 200 "tablet_service.cc" 731 "unexpected state"
         w1 = Some (reports ++ [last])
    /\ Forall (fun l => log_file l = "tablet_service.cc" /\ log_line l = 731%Z)
         (reports ++ [last])
    /\ is_fatal last = true.
Proof.
  eexists.
  destruct (Panic_reports_at_the_caller sample_DebugString (fun _ _ pb => pb)
              200 sample_call {| handler_latency := 42 |} []
              "tablet_service.cc" 731 "unexpected state" sample_world _ _
              eq_refl eq_refl)
    as (reports & last & Hpanic & Hloc & _ & Hfatal & _).
  { eexists. reflexivity. }
  exists reports, last. split; [reflexivity|]. auto.
Defined.

(** A second call in flight beside the sample one, with a request of its
    own. *)
Definition sample_other_context : RpcContext := {|
  call_ := sample_call;
  request_pb_ := HeapMessage 3;
  response_pb_ := nullptr;
  metrics_ := {| handler_latency := 43 |}
|}.

Definition sample_busy_world : World := {|
  FLAGS_v := 0;
  messages := <[1 := sample_request]>
                (<[2 := sample_response]> {[3 := sample_long_message]});
  contexts := <[100 := sample_context]> {[101 := sample_other_context]};
  sockets := {[5%Z := {| read_open := true; write_open := true |}]};
  events := []
|}.

Lemma methods_keep_to_their_context_witness :
  contexts sample_busy_world !! 100 = Some sample_context
  /\ exists w',
       invoke sample_DebugString (fun _ _ pb => pb) 100 DoRespondSuccess
         sample_busy_world = Some (tt, w')
       /\ contexts w' !! 101 = Some sample_other_context
       /\ messages w' !! 3 = Some sample_long_message
       /\ messages w' !! 1 = None
       /\ messages w' !! 2 = None
       /\ events w' = events sample_busy_world ++ new_events sample_busy_world w'.
Proof.
  split; [reflexivity|]. eexists. split; [reflexivity|].
  destruct (methods_keep_to_their_context sample_DebugString
              (fun _ _ pb => pb) 100 DoRespondSuccess sample_busy_world _
              sample_context eq_refl eq_refl)
    as (Hc & Hm & _ & Hown & _ & _ & Hev).
  split; [rewrite (Hc 101) by lia; reflexivity|].
  split; [rewrite (Hm 3) by discriminate; reflexivity|].
  split; [apply (Hown eq_refl 1); left; reflexivity|].
  split; [apply (Hown eq_refl 2); right; reflexivity|].
  exact Hev.
Defined.

End Rpc.

Module Placement.

(** ** Data model of the replica selector

    The selector itself ([SelectTServer]), the replica set with its
    [Refresh] and the tablet-server descriptor are defined in the client's
    internals and meta cache, which are not among the sources; the
    integration test only calls them.  The definitions of this part follow
    the spec's data model and its selection algorithm. *)

(** Modelled from the spec: the locality triple of the client internals,
    which are not among the sources; an empty field is unspecified. *)
Record Locality : Type := { cloud : string; region : string; zone : string }.

Inductive Dimension : Type := Zone | Region | Cloud.

Definition field (d : Dimension) (l : Locality) : string :=
  match d with
  | Zone => zone l
  | Region => region l
  | Cloud => cloud l
  end.

(** Modelled from the spec: [matches_field] of the missing locality type,
    true if both sides specify a non-empty value for the field and the two
    values are equal. *)
Definition matches_field (self other : Locality) (d : Dimension) : bool :=
  bool_decide (field d self <> "" /\ field d other <> ""
               /\ field d self = field d other).

Record HostPort : Type := { host : string; port : Z }.

(** Modelled from the spec: the tablet-server descriptor of the missing
    meta cache, with its stable id, its locality and its address. *)
Record ReplicaEndpoint : Type := {
  id : string;
  locality : Locality;
  address : HostPort
}.

Inductive Error : Type := InvalidDescriptor | NoViableReplica.

Inductive Result (A : Type) : Type :=
| Ok (a : A)
| Err (e : Error).
Arguments Ok {A} a.
Arguments Err {A} e.

(** Modelled from the spec: construction of the missing descriptor type
    from descriptor data fails if the id is empty. *)
Definition make_endpoint (i : string) (l : Locality) (a : HostPort)
  : Result ReplicaEndpoint :=
  if decide (i = "") then Err InvalidDescriptor
  else Ok {| id := i; locality := l; address := a |}.

Inductive Role : Type := LEADER | FOLLOWER.

(** Modelled from the spec: the replica set of one tablet, of the missing
    meta cache. *)
Record ReplicaSet : Type := {
  tablet_id : string;
  partition : string * string;
  replicas : list (ReplicaEndpoint * Role)
}.

(** Modelled from the spec: [Refresh] of the missing meta cache builds the
    new snapshot from the role list, looking every id up in the mapping;
    absent ids are dropped.  Returns the set with the snapshot installed and
    the counts of included and excluded entries. *)
Definition refresh (mapping : gmap string ReplicaEndpoint)
    (replica_list : list (string * Role)) (rs : ReplicaSet)
  : ReplicaSet * (nat * nat) :=
  let snapshot :=
    omap (fun e => match mapping !! fst e with
                   | Some ep => Some (ep, snd e)
                   | None => None
                   end) replica_list in
  ({| tablet_id := tablet_id rs; partition := partition rs;
      replicas := snapshot |},
   (length snapshot, length replica_list - length snapshot)).

Definition current_replicas (rs : ReplicaSet) : list (ReplicaEndpoint * Role) :=
  replicas rs.

Inductive SelectionPolicy : Type := CLOSEST_REPLICA | LEADER_ONLY.

Definition is_leader (e : ReplicaEndpoint * Role) : bool :=
  match snd e with
  | LEADER => true
  | FOLLOWER => false
  end.

(** Modelled from the spec: in the missing selector the leader-only mode
    restricts the pool to the replicas flagged as leader before the rules
    are applied. *)
Definition policy_pool (policy : SelectionPolicy) (rs : ReplicaSet)
  : list ReplicaEndpoint :=
  match policy with
  | CLOSEST_REPLICA => map fst (replicas rs)
  | LEADER_ONLY => map fst (List.filter is_leader (replicas rs))
  end.

(** Modelled from the spec: step 1 of the missing selector removes every
    replica whose id is excluded. *)
Definition remove_excluded (excluded_ids : gset string)
    (pool : list ReplicaEndpoint) : list ReplicaEndpoint :=
  List.filter (fun r => bool_decide (id r ∉ excluded_ids)) pool.

(** Modelled from the spec: step 2 of the missing selector looks for a
    remaining replica with exactly the requester's id, when the requester
    has one. *)
Definition colocated (requester_id : string) (pool : list ReplicaEndpoint)
  : option ReplicaEndpoint :=
  if decide (requester_id = "") then None
  else List.find (fun r => bool_decide (id r = requester_id)) pool.

Definition dimensions : list Dimension := [Zone; Region; Cloud].

(** Modelled from the spec: steps 3 and 4 of the missing selector take the
    dimensions from most to least specific.  A dimension the requester does
    not specify is skipped; a non-empty subset of matching replicas becomes
    the pool and the next dimension is applied within it; an empty subset
    stops the narrowing and the last non-empty pool is kept. *)
Fixpoint narrow (requester_locality : Locality) (dims : list Dimension)
    (pool : list ReplicaEndpoint) : list ReplicaEndpoint :=
  match dims with
  | [] => pool
  | d :: rest =>
      if decide (field d requester_locality = "") then
        narrow requester_locality rest pool
      else
        match List.filter
                (fun r => matches_field requester_locality (locality r) d)
                pool with
        | [] => pool
        | subset => narrow requester_locality rest subset
        end
  end.

Section Selector.

(** Step 5 leaves the tie-break among the final candidates to the
    implementation: a policy names a position, taken modulo the size of
    the pool. *)
Variable tie_break : list ReplicaEndpoint -> nat.

(** Modelled from the spec: step 5 of the missing selector chooses one
    replica of the final pool, here the one at the position the tie-break
    names. *)
Definition choose (pool : list ReplicaEndpoint) : option ReplicaEndpoint :=
  nth_error pool (tie_break pool mod length pool).

(** Modelled from the spec: [SelectTServer] is defined in the client's
    internals, which are not among the sources.  Fails with
    [NoViableReplica] when nothing remains after the exclusions; otherwise
    returns the colocated replica alone, or one replica of the narrowed
    pool together with that pool. *)
Definition select (rs : ReplicaSet) (policy : SelectionPolicy)
    (requester_id : string) (requester_locality : Locality)
    (excluded_ids : gset string)
  : Result (ReplicaEndpoint * list ReplicaEndpoint) :=
  match remove_excluded excluded_ids (policy_pool policy rs) with
  | [] => Err NoViableReplica
  | remaining =>
      match colocated requester_id remaining with
      | Some r => Ok (r, [r])
      | None =>
          let candidates := narrow requester_locality dimensions remaining in
          match choose candidates with
          | Some r => Ok (r, candidates)
          | None => Err NoViableReplica
          end
      end
  end.

End Selector.

(** ** The integration test [PlacementInfoTest]

    Translated from placement_info-itest.cc: the mini cluster of three
    tablet servers [SetUp] starts, and the checks of [TestSelectTServer]. *)

Section PlacementInfoTest.

Variable tie_break : list ReplicaEndpoint -> nat.

(** What the cluster assigns at start-up: the permanent uuid and the bound
    RPC address of tablet server [i]. *)
Variable permanent_uuid : nat -> string.
Variable bound_rpc_addr : nat -> HostPort.

Definition kNumTservers : nat := 3.

(** [strings::Substitute("region$0", ts_index)] *)
Definition PlacementRegion (ts_index : nat) : string :=
  "region" +:+ NilEmpty.string_of_uint (Nat.to_uint ts_index).

(** [strings::Substitute("zone$0", ts_index)] *)
Definition PlacementZone (ts_index : nat) : string :=
  "zone" +:+ NilEmpty.string_of_uint (Nat.to_uint ts_index).

(** Tablet server [i] as the options of [SetUp] place it. *)
Definition tserver (i : nat) : ReplicaEndpoint :=
  {| id := permanent_uuid i;
     locality := {| cloud := "aws"; region := PlacementRegion i;
                    zone := PlacementZone i |};
     address := bound_rpc_addr i |}.

(** [ts_uuid_to_index_], filled by [emplace] in the order of the servers. *)
Definition ts_uuid_to_index_ : gmap string nat :=
  fold_left (fun m i => match m !! permanent_uuid i with
                        | Some _ => m
                        | None => <[permanent_uuid i := i]> m
                        end)
            (seq 0 kNumTservers) ∅.

(** The tablet as [TestSelectTServer] prepares it: the server map built from
    the replicas the master reports (given by server index and role), then
    [Refresh]. *)
Definition remote_tablet_of (tablet_locations : list (nat * Role))
  : ReplicaSet :=
  let tserver_map :=
    fold_left (fun m e => match m !! permanent_uuid (fst e) with
                          | Some _ => m
                          | None => <[permanent_uuid (fst e) := tserver (fst e)]> m
                          end)
              tablet_locations (∅ : gmap string ReplicaEndpoint) in
  fst (refresh tserver_map
         (map (fun e => (permanent_uuid (fst e), snd e)) tablet_locations)
         {| tablet_id := "test_tablet_locations"; partition := ("", "");
            replicas := [] |}).

(** [ValidateSelectTServer]: the client is built with the given uuid, zone
    and region (no cloud), selects with [CLOSEST_REPLICA] and an empty
    exclusion set, and the index of the selected server is compared with
    the expected one ([operator[]] gives 0 for an unknown uuid). *)
Definition ValidateSelectTServer (client_uuid placement_zone
    placement_region : string) (expected_ts_index : nat)
    (remote_tablet : ReplicaSet) : bool :=
  let cloud_info := {| cloud := ""; region := placement_region;
                       zone := placement_zone |} in
  match select tie_break remote_tablet CLOSEST_REPLICA client_uuid
          cloud_info ∅ with
  | Ok (selected, _) =>
      bool_decide (expected_ts_index
                   = default 0 (ts_uuid_to_index_ !! id selected))
  | Err _ => false
  end.

(** One round of the loop of [TestSelectTServer]. *)
Definition TestSelectTServer_round (ts_index : nat)
    (remote_tablet : ReplicaSet) : bool :=
  ValidateSelectTServer (permanent_uuid ts_index) "" "" ts_index remote_tablet
  && ValidateSelectTServer "" (PlacementZone ts_index) "" ts_index
       remote_tablet
  && ValidateSelectTServer "" "" (PlacementRegion ts_index) ts_index
       remote_tablet
  && ValidateSelectTServer "" (PlacementZone ts_index)
       (PlacementRegion ((ts_index + 1) mod kNumTservers)) ts_index
       remote_tablet
  && ValidateSelectTServer (permanent_uuid ts_index)
       (PlacementZone ((ts_index + 1) mod kNumTservers))
       (PlacementRegion ((ts_index + 2) mod kNumTservers)) ts_index
       remote_tablet.

Definition TestSelectTServer (remote_tablet : ReplicaSet) : bool :=
  forallb (fun ts_index => TestSelectTServer_round ts_index remote_tablet)
    (seq 0 kNumTservers).

(** The replicas of the tablet are the three tablet servers, in any order
    and with any roles. *)
Definition hosts_the_tservers (rs : ReplicaSet) : Prop :=
  forall r, In r (map fst (replicas rs))
            <-> exists i, i < kNumTservers /\ r = tserver i.

End PlacementInfoTest.

(** ** The test [TestTabletLocations]

    Translated from placement_info-itest.cc: what the master reports about
    the tablet, [GetTabletLocations] and the body of the test. *)

(** [CloudInfoPB] as its accessors read it: a field that is not set reads
    as the empty string. *)
Record CloudInfoPB : Type := {
  placement_cloud : string;
  placement_region : string;
  placement_zone : string
}.

Record TSInfoPB : Type := {
  TSInfoPB_permanent_uuid : string;
  TSInfoPB_cloud_info : CloudInfoPB
}.

Record ReplicaPB : Type := { ts_info : TSInfoPB; ReplicaPB_role : Role }.

Record TabletLocationsPB : Type := {
  TabletLocationsPB_tablet_id : string;
  TabletLocationsPB_replicas : list ReplicaPB
}.

(** How a test ends: all assertions held, an assertion failed, or the test
    did something without defined behaviour. *)
Inductive TestOutcome : Type := Passed | Failed | Undefined.

(** [GetTabletLocations]: given how the call to the master went and what it
    answered, whether every assertion of the helper held and what is left
    in [*tablet_locations].  A failed assertion returns from the helper
    only. *)
Definition GetTabletLocations (rpc_ok : bool) (resp : list TabletLocationsPB)
    (tablet_locations : TabletLocationsPB) : bool * TabletLocationsPB :=
  if rpc_ok then
    match resp with
    | [first] =>
        (bool_decide (kNumTservers = length (TabletLocationsPB_replicas first)),
         first)
    | _ => (false, tablet_locations)
    end
  else (false, tablet_locations).

Section TabletLocations.

Variable permanent_uuid : nat -> string.

(** The loop of [TestTabletLocations] over the replicas, on the map of
    uuids not yet seen: [None] when the iterator returned by [find] is
    dereferenced at the end of the map, otherwise whether the assertions
    held and the map that is left. *)
Fixpoint check_replicas (replicas : list ReplicaPB) (m : gmap string nat)
  : option (bool * gmap string nat) :=
  match replicas with
  | [] => Some (true, m)
  | replica :: rest =>
      let cloud_info := TSInfoPB_cloud_info (ts_info replica) in
      let ts_uuid := TSInfoPB_permanent_uuid (ts_info replica) in
      match m !! ts_uuid with
      | None => None
      | Some ts_index =>
          let m' := delete ts_uuid m in
          if decide ("aws" = placement_cloud cloud_info) then
            if decide (PlacementRegion ts_index = placement_region cloud_info)
            then
              if decide (PlacementZone ts_index = placement_zone cloud_info)
              then check_replicas rest m'
              else Some (false, m')
            else Some (false, m')
          else Some (false, m')
      end
  end.

(** [TEST_F(PlacementInfoTest, TestTabletLocations)] *)
Definition TestTabletLocations (rpc_ok : bool)
    (resp : list TabletLocationsPB) : TestOutcome :=
  let '(helper_ok, tablet_locations) :=
    GetTabletLocations rpc_ok resp
      {| TabletLocationsPB_tablet_id := "";
         TabletLocationsPB_replicas := [] |} in
  match check_replicas (TabletLocationsPB_replicas tablet_locations)
          (ts_uuid_to_index_ permanent_uuid) with
  | None => Undefined
  | Some (false, _) => Failed
  | Some (true, unseen) =>
      if decide (0 = size unseen) then
        if helper_ok then Passed else Failed
      else Failed
  end.

(** Tablet server [i] as the master has to report it for the test to
    pass. *)
Definition ts_info_of (i : nat) : TSInfoPB :=
  {| TSInfoPB_permanent_uuid := permanent_uuid i;
     TSInfoPB_cloud_info :=
       {| placement_cloud := "aws"; placement_region := PlacementRegion i;
          placement_zone := PlacementZone i |} |}.

(** The servers get distinct uuids. *)
Definition distinct_uuids : Prop :=
  forall a b, a < kNumTservers -> b < kNumTservers ->
              permanent_uuid a = permanent_uuid b -> a = b.

(** Every entry of the map is a server under its own uuid. *)
Definition entries_are_servers (m : gmap string nat) : Prop :=
  forall u i, m !! u = Some i -> u = permanent_uuid i /\ i < kNumTservers.

End TabletLocations.

(** Sample values for running the selector on concrete data. *)
Definition sample_uuid (i : nat) : string :=
  "tserver-uuid-" +:+ NilEmpty.string_of_uint (Nat.to_uint i).

Definition sample_addr (i : nat) : HostPort :=
  {| host := "127.0.0.1"; port := 9100 + Z.of_nat i |}.

Definition sample_tablet : ReplicaSet :=
  remote_tablet_of sample_uuid sample_addr
    [(2, FOLLOWER); (0, LEADER); (1, FOLLOWER)].

Definition first_in_pool (pool : list ReplicaEndpoint) : nat := 0.

(** ** Properties of the selector *)

Lemma make_endpoint_id (i : string) (l : Locality) (a : HostPort)
    (r : ReplicaEndpoint) :
  make_endpoint i l a = Ok r -> id r = i /\ id r <> "".
Proof.
  unfold make_endpoint. destruct (decide (i = "")) as [|Hne]; [discriminate|].
  intros [= <-]. split; [reflexivity | exact Hne].
Qed.

Lemma remove_excluded_In (excluded_ids : gset string)
    (pool : list ReplicaEndpoint) (r : ReplicaEndpoint) :
  In r (remove_excluded excluded_ids pool)
  <-> In r pool /\ id r ∉ excluded_ids.
Proof.
  unfold remove_excluded. rewrite filter_In, bool_decide_eq_true. reflexivity.
Qed.

Lemma matches_field_eq (self other : Locality) (d : Dimension) :
  matches_field self other d = true -> field d other = field d self.
Proof.
  unfold matches_field. rewrite bool_decide_eq_true.
  intros (_ & _ & Heq). symmetry. exact Heq.
Qed.

Lemma matches_field_specified (self other : Locality) (d : Dimension) :
  field d self <> "" -> field d other = field d self ->
  matches_field self other d = true.
Proof.
  intros Hne Heq. unfold matches_field. rewrite bool_decide_eq_true.
  rewrite Heq. auto.
Qed.

Lemma narrow_incl (loc : Locality) (dims : list Dimension)
    (pool : list ReplicaEndpoint) (x : ReplicaEndpoint) :
  In x (narrow loc dims pool) -> In x pool.
Proof.
  revert pool. induction dims as [|d rest IH]; intros pool Hin; [exact Hin|].
  cbn [narrow] in Hin.
  destruct (decide (field d loc = "")); [apply IH; exact Hin|].
  destruct (List.filter _ pool) as [|r l] eqn:Hsub; [exact Hin|].
  apply IH in Hin. rewrite <- Hsub in Hin. apply filter_In in Hin. tauto.
Qed.

Lemma narrow_nonempty (loc : Locality) (dims : list Dimension)
    (pool : list ReplicaEndpoint) :
  pool <> [] -> narrow loc dims pool <> [].
Proof.
  revert pool. induction dims as [|d rest IH]; intros pool Hne; [exact Hne|].
  cbn [narrow].
  destruct (decide (field d loc = "")); [apply IH; exact Hne|].
  destruct (List.filter _ pool) as [|r l]; [exact Hne|].
  apply IH. discriminate.
Qed.

(** A dimension the requester does not specify leaves the pool alone. *)
Lemma narrow_skip (loc : Locality) (d : Dimension) (rest : list Dimension)
    (pool : list ReplicaEndpoint) :
  field d loc = "" -> narrow loc (d :: rest) pool = narrow loc rest pool.
Proof.
  intros Hempty. cbn [narrow].
  destruct (decide (field d loc = "")); [reflexivity | contradiction].
Qed.

(** When the requester specifies the first dimension and some replica of the
    pool has that value, every replica that is left has it. *)
Lemma narrow_first_match (loc : Locality) (d : Dimension)
    (rest : list Dimension) (pool : list ReplicaEndpoint) :
  field d loc <> "" ->
  (exists r, In r pool /\ field d (locality r) = field d loc) ->
  forall x, In x (narrow loc (d :: rest) pool) ->
            In x pool /\ field d (locality x) = field d loc.
Proof.
  intros Hspec (r & Hr & Hmatch) x Hin. cbn [narrow] in Hin.
  destruct (decide (field d loc = "")); [contradiction|].
  destruct (List.filter _ pool) as [|r0 l] eqn:Hsub.
  - exfalso.
    assert (Hrin : In r (List.filter
                           (fun r => matches_field loc (locality r) d) pool)).
    { apply filter_In. split; [exact Hr|].
      apply matches_field_specified; assumption. }
    rewrite Hsub in Hrin. exact Hrin.
  - apply narrow_incl in Hin. rewrite <- Hsub in Hin.
    apply filter_In in Hin. destruct Hin as [Hpool Hm].
    split; [exact Hpool | apply matches_field_eq in Hm; exact Hm].
Qed.

Lemma choose_In (tie_break : list ReplicaEndpoint -> nat)
    (pool : list ReplicaEndpoint) :
  pool <> [] -> exists r, choose tie_break pool = Some r /\ In r pool.
Proof.
  intros Hne. unfold choose.
  assert (Hlen : length pool <> 0) by (destruct pool; [contradiction | discriminate]).
  pose proof (Nat.mod_upper_bound (tie_break pool) (length pool) Hlen) as Hlt.
  destruct (nth_error pool (tie_break pool mod length pool)) as [r|] eqn:Hnth.
  - exists r. split; [reflexivity|]. eapply nth_error_In. exact Hnth.
  - apply nth_error_None in Hnth. lia.
Qed.

Lemma colocated_None (requester_id : string) (pool : list ReplicaEndpoint) :
  requester_id = "" \/ (forall r, In r pool -> id r <> requester_id) ->
  colocated requester_id pool = None.
Proof.
  intros Hno. unfold colocated.
  destruct (decide (requester_id = "")); [reflexivity|].
  destruct Hno as [|Hno]; [contradiction|].
  destruct (List.find _ pool) as [c|] eqn:Hfind; [|reflexivity].
  apply find_some in Hfind. destruct Hfind as [Hin Hid].
  apply bool_decide_eq_true in Hid. exfalso. exact (Hno c Hin Hid).
Qed.

Lemma colocated_found (pool : list ReplicaEndpoint) (r : ReplicaEndpoint) :
  In r pool -> id r <> "" ->
  exists c, colocated (id r) pool = Some c /\ In c pool /\ id c = id r.
Proof.
  intros Hin Hne. unfold colocated.
  destruct (decide (id r = "")); [contradiction|].
  destruct (List.find _ pool) as [c|] eqn:Hfind.
  - apply find_some in Hfind. destruct Hfind as [Hc Hid].
    apply bool_decide_eq_true in Hid. exists c. auto.
  - exfalso. pose proof (find_none _ _ Hfind r Hin) as Hr.
    cbn beta in Hr. apply bool_decide_eq_false in Hr. apply Hr. reflexivity.
Qed.

Lemma same_id_same_replica (pool : list ReplicaEndpoint)
    (a b : ReplicaEndpoint) :
  List.NoDup (map id pool) -> In a pool -> In b pool -> id a = id b -> a = b.
Proof.
  induction pool as [|x rest IH]; intros Hnd Ha Hb Hid; [destruct Ha|].
  cbn [map] in Hnd. apply NoDup_cons_iff in Hnd.
  destruct Hnd as [Hx Hrest].
  destruct Ha as [<-|Ha], Hb as [<-|Hb].
  - reflexivity.
  - exfalso. apply Hx. rewrite Hid. apply in_map. exact Hb.
  - exfalso. apply Hx. rewrite <- Hid. apply in_map. exact Ha.
  - apply IH; assumption.
Qed.

(** Without a colocated replica the candidates are the narrowed pool, and
    the chosen replica is one of them. *)
Lemma select_narrowed (tie_break : list ReplicaEndpoint -> nat)
    (rs : ReplicaSet) (policy : SelectionPolicy) (requester_id : string)
    (loc : Locality) (excluded_ids : gset string) :
  let remaining := remove_excluded excluded_ids (policy_pool policy rs) in
  remaining <> [] ->
  colocated requester_id remaining = None ->
  exists c,
    select tie_break rs policy requester_id loc excluded_ids
    = Ok (c, narrow loc dimensions remaining)
    /\ In c (narrow loc dimensions remaining).
Proof.
  intros remaining Hne Hcol. unfold select. fold remaining.
  destruct remaining as [|r0 l] eqn:Hrem; [contradiction|].
  cbn zeta. rewrite Hcol.
  destruct (choose_In tie_break (narrow loc dimensions (r0 :: l)))
    as (c & Hc & Hin); [apply narrow_nonempty; discriminate|].
  rewrite Hc. exists c. split; [reflexivity | exact Hin].
Qed.

(** [select] fails exactly when nothing remains after the exclusions;
    otherwise the chosen replica is a candidate, and every candidate is a
    remaining replica: none is excluded. *)
Lemma select_viable (tie_break : list ReplicaEndpoint -> nat)
    (rs : ReplicaSet) (policy : SelectionPolicy) (requester_id : string)
    (loc : Locality) (excluded_ids : gset string) :
  let remaining := remove_excluded excluded_ids (policy_pool policy rs) in
  (remaining = [] ->
   select tie_break rs policy requester_id loc excluded_ids
   = Err NoViableReplica)
  /\ (remaining <> [] ->
      exists c candidates,
        select tie_break rs policy requester_id loc excluded_ids
        = Ok (c, candidates)
        /\ In c candidates
        /\ forall x, In x candidates ->
                     In x (policy_pool policy rs) /\ id x ∉ excluded_ids).
Proof.
  intros remaining. split.
  - intros Hempty. unfold select. fold remaining. rewrite Hempty. reflexivity.
  - intros Hne.
    destruct (colocated requester_id remaining) as [c|] eqn:Hcol.
    + exists c, [c]. unfold select. fold remaining.
      destruct remaining as [|r0 l] eqn:Hrem; [contradiction|].
      cbn zeta. rewrite Hcol. split; [reflexivity|].
      split; [left; reflexivity|].
      intros x [<-|[]]. apply remove_excluded_In. fold remaining.
      rewrite Hrem. unfold colocated in Hcol.
      destruct (decide (requester_id = "")); [discriminate|].
      apply find_some in Hcol. tauto.
    + destruct (select_narrowed tie_break rs policy requester_id loc
                  excluded_ids Hne Hcol) as (c & Hsel & Hc).
      exists c, (narrow loc dimensions remaining).
      split; [exact Hsel|]. split; [exact Hc|].
      intros x Hx. apply remove_excluded_In. eapply narrow_incl. exact Hx.
Qed.

Lemma Placement_names_distinct (i j : nat) :
  i < kNumTservers -> j < kNumTservers ->
  PlacementZone j = PlacementZone i \/ PlacementRegion j = PlacementRegion i ->
  j = i.
Proof.
  unfold kNumTservers. intros Hi Hj Heq.
  destruct i as [|[|[|i]]]; [| | |lia];
    (destruct j as [|[|[|j]]]; [| | |lia]);
    try reflexivity; destruct Heq as [Heq|Heq]; discriminate Heq.
Qed.

Lemma remove_excluded_none (pool : list ReplicaEndpoint) :
  remove_excluded ∅ pool = pool.
Proof.
  unfold remove_excluded. induction pool as [|r rest IH]; [reflexivity|].
  cbn [List.filter].
  rewrite (bool_decide_eq_true_2 (id r ∉ (∅ : gset string)))
    by apply not_elem_of_empty.
  f_equal. exact IH.
Qed.

(** With the requester's id that of a remaining replica, that replica is
    selected alone. *)
Lemma select_colocated (tie_break : list ReplicaEndpoint -> nat)
    (rs : ReplicaSet) (policy : SelectionPolicy) (loc : Locality)
    (excluded_ids : gset string) (r : ReplicaEndpoint) :
  In r (policy_pool policy rs) ->
  id r <> "" ->
  id r ∉ excluded_ids ->
  exists c,
    select tie_break rs policy (id r) loc excluded_ids = Ok (c, [c])
    /\ id c = id r
    /\ In c (policy_pool policy rs).
Proof.
  intros Hin Hne Hex.
  assert (Hrem : In r (remove_excluded excluded_ids (policy_pool policy rs)))
    by (apply remove_excluded_In; auto).
  destruct (colocated_found _ _ Hrem Hne) as (c & Hcol & Hc & Hid).
  exists c. unfold select.
  destruct (remove_excluded excluded_ids (policy_pool policy rs))
    as [|r0 l] eqn:Hpool; [destruct Hrem|].
  cbn zeta. rewrite Hcol.
  rewrite <- Hpool in Hc. apply remove_excluded_In in Hc.
  destruct Hc as [Hc _]. auto.
Qed.

(** Without a colocated replica, the most specific dimension the requester
    specifies decides, when some remaining replica matches on it. *)
Lemma select_by_dimension (tie_break : list ReplicaEndpoint -> nat)
    (rs : ReplicaSet) (policy : SelectionPolicy) (requester_id : string)
    (loc : Locality) (excluded_ids : gset string) (d : Dimension) :
  let remaining := remove_excluded excluded_ids (policy_pool policy rs) in
  requester_id = "" \/ (forall r, In r remaining -> id r <> requester_id) ->
  (d = Zone \/ (d = Region /\ zone loc = "")) ->
  field d loc <> "" ->
  (exists r, In r remaining /\ field d (locality r) = field d loc) ->
  exists c candidates,
    select tie_break rs policy requester_id loc excluded_ids
    = Ok (c, candidates)
    /\ In c candidates
    /\ forall x, In x candidates ->
                 In x remaining /\ field d (locality x) = field d loc.
Proof.
  intros remaining Hno Hdim Hspec Hex.
  assert (Hne : remaining <> [])
    by (destruct Hex as (r & Hr & _); intros Heq; rewrite Heq in Hr; exact Hr).
  destruct (select_narrowed tie_break rs policy requester_id loc excluded_ids
              Hne (colocated_None _ _ Hno)) as (c & Hsel & Hc).
  exists c, (narrow loc dimensions remaining).
  split; [exact Hsel|]. split; [exact Hc|].
  intros x Hx. unfold dimensions in Hx.
  destruct Hdim as [->|[-> Hzone]].
  - exact (narrow_first_match loc Zone _ _ Hspec Hex x Hx).
  - rewrite (narrow_skip loc Zone) in Hx by exact Hzone.
    exact (narrow_first_match loc Region _ _ Hspec Hex x Hx).
Qed.

(** In the cluster of the test a requester without id that names the zone
    or, with no zone, the region of tablet server [i] is given server [i]. *)
Lemma tservers_select_by_dimension (tie_break : list ReplicaEndpoint -> nat)
    (permanent_uuid : nat -> string) (bound_rpc_addr : nat -> HostPort)
    (rs : ReplicaSet) (i : nat) (loc : Locality) (d : Dimension) :
  hosts_the_tservers permanent_uuid bound_rpc_addr rs ->
  i < kNumTservers ->
  (d = Zone \/ (d = Region /\ zone loc = "")) ->
  field d loc = field d (locality (tserver permanent_uuid bound_rpc_addr i)) ->
  exists candidates,
    select tie_break rs CLOSEST_REPLICA "" loc ∅
    = Ok (tserver permanent_uuid bound_rpc_addr i, candidates).
Proof.
  intros Hhosts Hi Hdim Hfield.
  destruct (select_by_dimension tie_break rs CLOSEST_REPLICA "" loc ∅ d)
    as (c & cands & Hsel & Hc & Hall).
  - left. reflexivity.
  - exact Hdim.
  - rewrite Hfield.
    destruct Hdim as [->|[-> _]]; destruct i as [|[|[|i]]]; discriminate.
  - exists (tserver permanent_uuid bound_rpc_addr i).
    rewrite remove_excluded_none. split; [|symmetry; exact Hfield].
    apply Hhosts. exists i. auto.
  - exists cands. rewrite Hsel. do 2 f_equal.
    destruct (Hall c Hc) as [Hpool Hz].
    rewrite remove_excluded_none in Hpool.
    apply Hhosts in Hpool. destruct Hpool as (j & Hj & ->).
    f_equal. apply Placement_names_distinct; [assumption..|].
    rewrite Hfield in Hz.
    destruct Hdim as [->|[-> _]]; [left | right]; exact Hz.
Qed.

(** Claim C1.  When the requester's id is the (non-empty) id of a replica of
    the pool that is not excluded, [select] returns a replica with that id
    and the candidates are that replica alone, whatever the requester's
    locality; with ids unique in the pool it is that very replica. *)
Theorem select_colocated_overrides_locality
    (tie_break : list ReplicaEndpoint -> nat) (rs : ReplicaSet)
    (policy : SelectionPolicy) (loc : Locality) (excluded_ids : gset string)
    (r : ReplicaEndpoint) :
  In r (policy_pool policy rs) ->
  id r <> "" ->
  id r ∉ excluded_ids ->
  exists c,
    select tie_break rs policy (id r) loc excluded_ids = Ok (c, [c])
    /\ id c = id r
    /\ In c (policy_pool policy rs)
    /\ (List.NoDup (map id (policy_pool policy rs)) -> c = r).
Proof.
  intros Hin Hne Hex.
  destruct (select_colocated tie_break rs policy loc excluded_ids r Hin Hne Hex)
    as (c & Hsel & Hid & Hc).
  exists c. repeat split; try assumption.
  intros Hnd. eapply same_id_same_replica; eassumption.
Qed.

(** Claim C2.  When no remaining replica has the requester's id, the
    requester specifies a zone and some remaining replica is in that zone,
    [select] returns a replica of that zone and every candidate is in that
    zone, so that a replica matching only by region or cloud is not
    selected.  In the cluster of the test, the locality with zone i and
    region i+1 selects tablet server i. *)
Theorem select_prefers_zone_match (tie_break : list ReplicaEndpoint -> nat) :
  (forall rs policy requester_id loc excluded_ids,
      let remaining := remove_excluded excluded_ids (policy_pool policy rs) in
      requester_id = "" \/ (forall r, In r remaining -> id r <> requester_id) ->
      zone loc <> "" ->
      (exists r, In r remaining /\ zone (locality r) = zone loc) ->
      exists c candidates,
        select tie_break rs policy requester_id loc excluded_ids
        = Ok (c, candidates)
        /\ In c candidates
        /\ forall x, In x candidates ->
                     In x remaining /\ zone (locality x) = zone loc)
  /\ (forall permanent_uuid bound_rpc_addr rs i,
      hosts_the_tservers permanent_uuid bound_rpc_addr rs ->
      i < kNumTservers ->
      exists candidates,
        select tie_break rs CLOSEST_REPLICA ""
          {| cloud := "";
             region := PlacementRegion ((i + 1) mod kNumTservers);
             zone := PlacementZone i |} ∅
        = Ok (tserver permanent_uuid bound_rpc_addr i, candidates)).
Proof.
  split.
  - intros rs policy requester_id loc excluded_ids remaining Hno Hzone Hex.
    apply (select_by_dimension tie_break rs policy requester_id loc
             excluded_ids Zone); auto.
  - intros permanent_uuid bound_rpc_addr rs i Hhosts Hi.
    apply (tservers_select_by_dimension tie_break permanent_uuid
             bound_rpc_addr rs i _ Zone); auto.
Qed.

(** Claim C5.  When no remaining replica has the requester's id, the
    requester leaves the zone empty and specifies a region, and some
    remaining replica is in that region, [select] returns a replica of that
    region and every candidate is in that region, so that a replica matching
    only by cloud, or not at all, is not selected.  In the cluster of the
    test, the locality with region i and no zone selects tablet server i. *)
Theorem select_prefers_region_without_zone
    (tie_break : list ReplicaEndpoint -> nat) :
  (forall rs policy requester_id loc excluded_ids,
      let remaining := remove_excluded excluded_ids (policy_pool policy rs) in
      requester_id = "" \/ (forall r, In r remaining -> id r <> requester_id) ->
      zone loc = "" ->
      region loc <> "" ->
      (exists r, In r remaining /\ region (locality r) = region loc) ->
      exists c candidates,
        select tie_break rs policy requester_id loc excluded_ids
        = Ok (c, candidates)
        /\ In c candidates
        /\ forall x, In x candidates ->
                     In x remaining /\ region (locality x) = region loc)
  /\ (forall permanent_uuid bound_rpc_addr rs i,
      hosts_the_tservers permanent_uuid bound_rpc_addr rs ->
      i < kNumTservers ->
      exists candidates,
        select tie_break rs CLOSEST_REPLICA ""
          {| cloud := ""; region := PlacementRegion i; zone := "" |} ∅
        = Ok (tserver permanent_uuid bound_rpc_addr i, candidates)).
Proof.
  split.
  - intros rs policy requester_id loc excluded_ids remaining Hno Hzone Hregion
      Hex.
    apply (select_by_dimension tie_break rs policy requester_id loc
             excluded_ids Region); auto.
  - intros permanent_uuid bound_rpc_addr rs i Hhosts Hi.
    apply (tservers_select_by_dimension tie_break permanent_uuid
             bound_rpc_addr rs i _ Region); auto.
Qed.

(** [ts_uuid_to_index_] gives every server its index when the uuids are
    distinct. *)
Lemma ts_uuid_to_index_lookup (permanent_uuid : nat -> string) (i : nat) :
  (forall a b, a < kNumTservers -> b < kNumTservers ->
               permanent_uuid a = permanent_uuid b -> a = b) ->
  i < kNumTservers ->
  ts_uuid_to_index_ permanent_uuid !! permanent_uuid i = Some i.
Proof.
  unfold kNumTservers. intros Hinj Hi.
  assert (H01 : permanent_uuid 0 <> permanent_uuid 1)
    by (intros H; apply Hinj in H; lia).
  assert (H02 : permanent_uuid 0 <> permanent_uuid 2)
    by (intros H; apply Hinj in H; lia).
  assert (H12 : permanent_uuid 1 <> permanent_uuid 2)
    by (intros H; apply Hinj in H; lia).
  unfold ts_uuid_to_index_, kNumTservers. cbn [seq fold_left].
  rewrite lookup_empty.
  rewrite (lookup_insert_ne _ (permanent_uuid 0) (permanent_uuid 1)) by exact H01.
  rewrite lookup_empty.
  rewrite (lookup_insert_ne _ (permanent_uuid 1) (permanent_uuid 2)) by exact H12.
  rewrite (lookup_insert_ne _ (permanent_uuid 0) (permanent_uuid 2)) by exact H02.
  rewrite lookup_empty.
  destruct i as [|[|[|i]]]; [| | |lia].
  - rewrite lookup_insert_ne by (symmetry; exact H02).
    rewrite lookup_insert_ne by (symmetry; exact H01).
    apply lookup_insert_eq.
  - rewrite lookup_insert_ne by (symmetry; exact H12).
    apply lookup_insert_eq.
  - apply lookup_insert_eq.
Qed.

Lemma ValidateSelectTServer_selected
    (tie_break : list ReplicaEndpoint -> nat)
    (permanent_uuid : nat -> string) (bound_rpc_addr : nat -> HostPort)
    (rs : ReplicaSet) (client_uuid placement_zone placement_region : string)
    (i : nat) (c : ReplicaEndpoint) (candidates : list ReplicaEndpoint) :
  (forall a b, a < kNumTservers -> b < kNumTservers ->
               permanent_uuid a = permanent_uuid b -> a = b) ->
  i < kNumTservers ->
  select tie_break rs CLOSEST_REPLICA client_uuid
    {| cloud := ""; region := placement_region; zone := placement_zone |} ∅
  = Ok (c, candidates) ->
  id c = permanent_uuid i ->
  ValidateSelectTServer tie_break permanent_uuid client_uuid placement_zone
    placement_region i rs = true.
Proof.
  intros Hinj Hi Hsel Hid. unfold ValidateSelectTServer. cbn zeta.
  rewrite Hsel, Hid, (ts_uuid_to_index_lookup _ _ Hinj Hi).
  apply bool_decide_eq_true. reflexivity.
Qed.

(** The test passes: on a tablet whose replicas are the three tablet
    servers, started with distinct non-empty uuids, every check of
    [TestSelectTServer] holds, whatever the tie-break. *)
Theorem TestSelectTServer_passes (tie_break : list ReplicaEndpoint -> nat)
    (permanent_uuid : nat -> string) (bound_rpc_addr : nat -> HostPort)
    (rs : ReplicaSet) :
  hosts_the_tservers permanent_uuid bound_rpc_addr rs ->
  (forall a, a < kNumTservers -> permanent_uuid a <> "") ->
  (forall a b, a < kNumTservers -> b < kNumTservers ->
               permanent_uuid a = permanent_uuid b -> a = b) ->
  TestSelectTServer tie_break permanent_uuid rs = true.
Proof.
  intros Hhosts Hne Hinj.
  assert (Hcol : forall i zone_name region_name,
    i < kNumTservers ->
    ValidateSelectTServer tie_break permanent_uuid (permanent_uuid i)
      zone_name region_name i rs = true).
  { intros i zone_name region_name Hi.
    destruct (select_colocated tie_break rs CLOSEST_REPLICA
                {| cloud := ""; region := region_name; zone := zone_name |} ∅
                (tserver permanent_uuid bound_rpc_addr i))
      as (c & Hsel & Hid & _).
    - apply Hhosts. exists i. auto.
    - apply Hne. exact Hi.
    - apply not_elem_of_empty.
    - eapply ValidateSelectTServer_selected; eauto. }
  assert (Hdim : forall i zone_name region_name d,
    i < kNumTservers ->
    (d = Zone \/ (d = Region /\ zone_name = "")) ->
    field d {| cloud := ""; region := region_name; zone := zone_name |}
    = field d (locality (tserver permanent_uuid bound_rpc_addr i)) ->
    ValidateSelectTServer tie_break permanent_uuid "" zone_name region_name
      i rs = true).
  { intros i zone_name region_name d Hi Hd Hfield.
    destruct (tservers_select_by_dimension tie_break permanent_uuid
                bound_rpc_addr rs i
                {| cloud := ""; region := region_name; zone := zone_name |}
                d Hhosts Hi Hd Hfield)
      as (cands & Hsel).
    eapply ValidateSelectTServer_selected; eauto. }
  unfold TestSelectTServer. apply forallb_forall. intros i Hin.
  apply in_seq in Hin. cbn in Hin. destruct Hin as [_ Hi].
  unfold TestSelectTServer_round.
  rewrite !Hcol by exact Hi.
  rewrite (Hdim i (PlacementZone i) "" Zone) by auto.
  rewrite (Hdim i "" (PlacementRegion i) Region) by auto.
  rewrite (Hdim i (PlacementZone i) _ Zone) by auto.
  reflexivity.
Qed.

(** ** The selector on the sample tablet *)

Lemma sample_tablet_hosts_the_tservers :
  hosts_the_tservers sample_uuid sample_addr sample_tablet.
Proof.
  intros r. split.
  - intros [<-|[<-|[<-|[]]]];
      [exists 2 | exists 0 | exists 1]; (split; [unfold kNumTservers; lia|]);
      reflexivity.
  - intros (i & Hi & ->). unfold kNumTservers in Hi.
    destruct i as [|[|[|i]]]; [| | |lia]; vm_compute; auto.
Qed.

Lemma TestSelectTServer_passes_witness :
  TestSelectTServer first_in_pool sample_uuid sample_tablet = true.
Proof.
  apply (TestSelectTServer_passes first_in_pool sample_uuid sample_addr
           sample_tablet).
  - exact sample_tablet_hosts_the_tservers.
  - intros a _. discriminate.
  - unfold kNumTservers. intros a b Ha Hb Heq.
    destruct a as [|[|[|a]]]; [| | |lia];
      (destruct b as [|[|[|b]]]; [| | |lia]);
      try reflexivity; discriminate Heq.
Defined.

Lemma select_colocated_overrides_locality_witness :
  In (tserver sample_uuid sample_addr 0)
     (policy_pool CLOSEST_REPLICA sample_tablet)
  /\ id (tserver sample_uuid sample_addr 0) <> ""
  /\ (id (tserver sample_uuid sample_addr 0) ∉ (∅ : gset string))
  /\ exists c,
       select first_in_pool sample_tablet CLOSEST_REPLICA (sample_uuid 0)
         {| cloud := ""; region := PlacementRegion 2; zone := PlacementZone 1 |}
         ∅ = Ok (c, [c])
       /\ id c = sample_uuid 0
       /\ In c (policy_pool CLOSEST_REPLICA sample_tablet)
       /\ (List.NoDup (map id (policy_pool CLOSEST_REPLICA sample_tablet)) ->
           c = tserver sample_uuid sample_addr 0).
Proof.
  assert (Hin : In (tserver sample_uuid sample_addr 0)
                   (policy_pool CLOSEST_REPLICA sample_tablet))
    by (right; left; reflexivity).
  assert (Hne : id (tserver sample_uuid sample_addr 0) <> "")
    by discriminate.
  assert (Hex : id (tserver sample_uuid sample_addr 0) ∉ (∅ : gset string))
    by apply not_elem_of_empty.
  split; [exact Hin|]. split; [exact Hne|]. split; [exact Hex|].
  exact (select_colocated_overrides_locality first_in_pool sample_tablet
           CLOSEST_REPLICA
           {| cloud := ""; region := PlacementRegion 2;
              zone := PlacementZone 1 |}
           ∅ (tserver sample_uuid sample_addr 0) Hin Hne Hex).
Defined.

Lemma select_prefers_zone_match_witness :
  hosts_the_tservers sample_uuid sample_addr sample_tablet
  /\ 1 < kNumTservers
  /\ exists candidates,
       select first_in_pool sample_tablet CLOSEST_REPLICA ""
         {| cloud := ""; region := PlacementRegion ((1 + 1) mod kNumTservers);
            zone := PlacementZone 1 |} ∅
       = Ok (tserver sample_uuid sample_addr 1, candidates).
Proof.
  assert (Hlt : 1 < kNumTservers) by (unfold kNumTservers; lia).
  split; [exact sample_tablet_hosts_the_tservers|]. split; [exact Hlt|].
  exact (proj2 (select_prefers_zone_match first_in_pool) sample_uuid
           sample_addr sample_tablet 1 sample_tablet_hosts_the_tservers Hlt).
Defined.

Lemma select_prefers_region_without_zone_witness :
  hosts_the_tservers sample_uuid sample_addr sample_tablet
  /\ 2 < kNumTservers
  /\ exists candidates,
       select first_in_pool sample_tablet CLOSEST_REPLICA ""
         {| cloud := ""; region := PlacementRegion 2; zone := "" |} ∅
       = Ok (tserver sample_uuid sample_addr 2, candidates).
Proof.
  assert (Hlt : 2 < kNumTservers) by (unfold kNumTservers; lia).
  split; [exact sample_tablet_hosts_the_tservers|]. split; [exact Hlt|].
  exact (proj2 (select_prefers_region_without_zone first_in_pool) sample_uuid
           sample_addr sample_tablet 2 sample_tablet_hosts_the_tservers Hlt).
Defined.

(** ** The names and the map of the test fixture *)

(** The zone and region names tell the servers apart, however many there
    are, and no zone name is a region name. *)
Theorem Placement_names_injective (i j : nat) :
  (PlacementZone i = PlacementZone j -> i = j)
  /\ (PlacementRegion i = PlacementRegion j -> i = j)
  /\ PlacementZone i <> PlacementRegion j.
Proof.
  assert (Hinj : forall a b,
    NilEmpty.string_of_uint (Nat.to_uint a)
    = NilEmpty.string_of_uint (Nat.to_uint b) -> a = b).
  { intros a b Heq.
    assert (Hu : Some (Nat.to_uint a) = Some (Nat.to_uint b))
      by (rewrite <- !NilEmpty.usu, Heq; reflexivity).
    injection Hu as Hu.
    rewrite <- (Unsigned.of_to a), <- (Unsigned.of_to b), Hu. reflexivity. }
  unfold PlacementZone, PlacementRegion. repeat split.
  - intros Heq. apply Hinj. cbn in Heq. injection Heq as Heq. exact Heq.
  - intros Heq. apply Hinj. cbn in Heq. injection Heq as Heq. exact Heq.
  - cbn. discriminate.
Qed.

Section TabletLocationsFacts.

Variable permanent_uuid : nat -> string.

(** The loop of [SetUp] over any servers and from any map: [emplace]
    leaves an entry that is there, so a uuid ends with the entry it had, or
    else with the first of the servers that has it. *)
Lemma emplace_all_lookup (l : list nat) (m : gmap string nat) (u : string) :
  fold_left (fun m i => match m !! permanent_uuid i with
                        | Some _ => m
                        | None => <[permanent_uuid i := i]> m
                        end) l m !! u
  = match m !! u with
    | Some x => Some x
    | None => List.find (fun i => bool_decide (permanent_uuid i = u)) l
    end.
Proof.
  revert m. induction l as [|a l IH]; intros m.
  - cbn. destruct (m !! u); reflexivity.
  - cbn [fold_left List.find]. rewrite IH.
    destruct (m !! permanent_uuid a) as [x|] eqn:Ha.
    + destruct (m !! u) as [y|] eqn:Hu; [reflexivity|].
      rewrite bool_decide_eq_false_2; [reflexivity|].
      intros Heq. rewrite Heq in Ha. congruence.
    + destruct (decide (permanent_uuid a = u)) as [Heq|Hne].
      * rewrite <- Heq, lookup_insert_eq, Ha.
        rewrite bool_decide_eq_true_2 by reflexivity. reflexivity.
      * rewrite lookup_insert_ne by exact Hne.
        rewrite (bool_decide_eq_false_2 _ Hne). reflexivity.
Qed.

Lemma find_seq_first (p : nat -> bool) (start len i : nat) :
  List.find p (seq start len) = Some i
  <-> start <= i < start + len /\ p i = true
      /\ forall j, start <= j < i -> p j = false.
Proof.
  revert start. induction len as [|len IH]; intros start.
  - cbn. split; [discriminate | lia].
  - cbn [seq List.find]. destruct (p start) eqn:Hp.
    + split.
      * intros [= <-]. repeat split; try lia. exact Hp.
      * intros (Hi & Hpi & Hfirst).
        destruct (decide (i = start)) as [->|Hne]; [reflexivity|].
        rewrite (Hfirst start) in Hp by lia. discriminate.
    + rewrite IH. split.
      * intros (Hi & Hpi & Hfirst). repeat split; try lia; [exact Hpi|].
        intros j Hj. destruct (decide (j = start)) as [->|Hne];
          [exact Hp | apply Hfirst; lia].
      * intros (Hi & Hpi & Hfirst).
        assert (i <> start) by (intros ->; congruence).
        repeat split; try lia; [exact Hpi|].
        intros j Hj. apply Hfirst. lia.
Qed.

(** The map of [SetUp] holds a uuid exactly when some server has it, with
    the index of the first such server. *)
Lemma ts_uuid_to_index_first (u : string) (i : nat) :
  ts_uuid_to_index_ permanent_uuid !! u = Some i
  <-> i < kNumTservers /\ permanent_uuid i = u
      /\ forall j, j < i -> permanent_uuid j <> u.
Proof.
  unfold ts_uuid_to_index_. rewrite emplace_all_lookup, lookup_empty.
  rewrite find_seq_first. split.
  - intros (Hi & Hp & Hfirst). apply bool_decide_eq_true in Hp.
    repeat split; [lia | exact Hp |].
    intros j Hj. specialize (Hfirst j ltac:(lia)).
    apply bool_decide_eq_false in Hfirst. exact Hfirst.
  - intros (Hi & Hp & Hfirst).
    repeat split; [lia | lia | apply bool_decide_eq_true; exact Hp |].
    intros j Hj. apply bool_decide_eq_false. apply Hfirst. lia.
Qed.

Lemma ts_uuid_to_index_entries :
  entries_are_servers permanent_uuid (ts_uuid_to_index_ permanent_uuid).
Proof.
  intros u i Hl. apply ts_uuid_to_index_first in Hl.
  destruct Hl as (Hi & Hu & _). auto.
Qed.

Lemma ts_info_checked (replica : ReplicaPB) (i : nat) :
  TSInfoPB_permanent_uuid (ts_info replica) = permanent_uuid i ->
  "aws" = placement_cloud (TSInfoPB_cloud_info (ts_info replica)) ->
  PlacementRegion i = placement_region (TSInfoPB_cloud_info (ts_info replica)) ->
  PlacementZone i = placement_zone (TSInfoPB_cloud_info (ts_info replica)) ->
  ts_info replica = ts_info_of permanent_uuid i.
Proof.
  destruct replica as [[u [c r z]] role]. cbn. intros -> <- <- <-.
  reflexivity.
Qed.

(** When the loop holds all its assertions, the replicas were servers of
    the map, each once, reported with their own placement, and the map is
    left without them. *)
Lemma check_replicas_held (replicas : list ReplicaPB)
    (m unseen : gmap string nat) :
  entries_are_servers permanent_uuid m ->
  check_replicas replicas m = Some (true, unseen) ->
  exists order,
    map ts_info replicas = map (ts_info_of permanent_uuid) order
    /\ NoDup order
    /\ (forall i, i ∈ order -> m !! permanent_uuid i = Some i)
    /\ (forall u j, unseen !! u = Some j
                    <-> m !! u = Some j
                        /\ forall i, i ∈ order -> u <> permanent_uuid i).
Proof.
  revert m. induction replicas as [|replica rest IH]; intros m Hentries Hrun.
  - injection Hrun as <-. exists []. split; [reflexivity|].
    split; [constructor|]. split; [intros i Hi; inversion Hi|].
    intros u j. split; [intros Hl; split; [exact Hl|]|tauto].
    intros i Hi. inversion Hi.
  - cbn [check_replicas] in Hrun.
    destruct (m !! TSInfoPB_permanent_uuid (ts_info replica)) as [i|] eqn:Hl;
      [|discriminate].
    destruct (decide ("aws" = _)) as [Hcloud|]; [|discriminate].
    destruct (decide (PlacementRegion i = _)) as [Hregion|]; [|discriminate].
    destruct (decide (PlacementZone i = _)) as [Hzone|]; [|discriminate].
    destruct (Hentries _ _ Hl) as [Hu Hi].
    rewrite Hu in Hl, Hrun.
    assert (Hentries' : entries_are_servers permanent_uuid
                          (delete (permanent_uuid i) m)).
    { intros u j Hd. apply lookup_delete_Some in Hd.
      apply Hentries. tauto. }
    destruct (IH _ Hentries' Hrun) as (order & Hmap & Hnd & Hin & Hleft).
    exists (i :: order).
    split; [cbn [map]; rewrite Hmap, (ts_info_checked replica i); auto|].
    split.
    { constructor; [|exact Hnd]. intros Hi'. specialize (Hin i Hi').
      rewrite lookup_delete_eq in Hin. discriminate. }
    split.
    { intros i' Hi'. apply elem_of_cons in Hi'.
      destruct Hi' as [->|Hi']; [exact Hl|].
      specialize (Hin i' Hi'). apply lookup_delete_Some in Hin. tauto. }
    intros u j. rewrite Hleft, lookup_delete_Some. split.
    + intros ((Hne & Hm) & Hrest). split; [exact Hm|].
      intros i' Hi'. apply elem_of_cons in Hi'.
      destruct Hi' as [->|Hi']; [congruence | exact (Hrest i' Hi')].
    + intros (Hm & Hall). split; [split; [|exact Hm]|].
      * intros Heq. apply (Hall i); [left | congruence].
      * intros i' Hi'. apply Hall. right. exact Hi'.
Qed.

(** The converse: servers of the map, each once and under distinct uuids,
    reported with their own placement, pass the loop. *)
Lemma check_replicas_reported (order : list nat) (replicas : list ReplicaPB)
    (m : gmap string nat) :
  NoDup order ->
  (forall i, i ∈ order -> m !! permanent_uuid i = Some i) ->
  (forall i j, i ∈ order -> j ∈ order ->
               permanent_uuid i = permanent_uuid j -> i = j) ->
  map ts_info replicas = map (ts_info_of permanent_uuid) order ->
  exists unseen,
    check_replicas replicas m = Some (true, unseen)
    /\ (forall u j, unseen !! u = Some j
                    <-> m !! u = Some j
                        /\ forall i, i ∈ order -> u <> permanent_uuid i).
Proof.
  revert replicas m. induction order as [|i order IH];
    intros replicas m Hnd Hin Hinj Hmap.
  - destruct replicas; [|discriminate Hmap]. exists m.
    split; [reflexivity|]. intros u j.
    split; [intros Hl; split; [exact Hl|]|tauto].
    intros i Hi. inversion Hi.
  - destruct replicas as [|replica rest]; [discriminate Hmap|].
    cbn [map] in Hmap. injection Hmap as Hinfo Hmap.
    apply NoDup_cons in Hnd. destruct Hnd as [Hfresh Hnd].
    destruct (IH rest (delete (permanent_uuid i) m)) as (unseen & Hrun & Hleft).
    + exact Hnd.
    + intros i' Hi'. apply lookup_delete_Some. split.
      * intros Heq. apply Hinj in Heq; [|left|right; exact Hi'].
        subst i'. contradiction.
      * apply Hin. right. exact Hi'.
    + intros a b Ha Hb. apply Hinj; right; assumption.
    + exact Hmap.
    + exists unseen. split.
      * cbn [check_replicas]. rewrite Hinfo. cbn [ts_info_of
          TSInfoPB_permanent_uuid TSInfoPB_cloud_info placement_cloud
          placement_region placement_zone].
        rewrite (Hin i) by left.
        rewrite !decide_True by reflexivity. exact Hrun.
      * intros u j. rewrite Hleft, lookup_delete_Some. split.
        -- intros ((Hne & Hm) & Hrest). split; [exact Hm|].
           intros i' Hi'. apply elem_of_cons in Hi'.
           destruct Hi' as [->|Hi']; [congruence | exact (Hrest i' Hi')].
        -- intros (Hm & Hall). split; [split; [|exact Hm]|].
           ++ intros Heq. apply (Hall i); [left | congruence].
           ++ intros i' Hi'. apply Hall. right. exact Hi'.
Qed.

Lemma check_replicas_app (a b : list ReplicaPB) (m : gmap string nat) :
  check_replicas (a ++ b) m
  = match check_replicas a m with
    | Some (true, m') => check_replicas b m'
    | other => other
    end.
Proof.
  revert m. induction a as [|replica rest IH]; intros m; [reflexivity|].
  cbn [app check_replicas].
  destruct (m !! _); [|reflexivity].
  repeat (destruct (decide _); [|reflexivity]). apply IH.
Qed.

(** With distinct uuids [TestTabletLocations] passes exactly when the call
    to the master succeeds and it answers with one tablet whose replicas
    are the three tablet servers in some order, each reported under its
    uuid with the cloud, region and zone it was started with. *)
Theorem TestTabletLocations_passes_iff (rpc_ok : bool)
    (resp : list TabletLocationsPB) :
  distinct_uuids permanent_uuid ->
  TestTabletLocations permanent_uuid rpc_ok resp = Passed
  <-> rpc_ok = true
      /\ exists tablet order,
           resp = [tablet]
           /\ Permutation order (seq 0 kNumTservers)
           /\ map ts_info (TabletLocationsPB_replicas tablet)
              = map (ts_info_of permanent_uuid) order.
Proof.
  intros Hdistinct.
  assert (Hown : forall i, i < kNumTservers ->
            ts_uuid_to_index_ permanent_uuid !! permanent_uuid i = Some i).
  { intros i Hi. apply ts_uuid_to_index_first.
    repeat split; [exact Hi|]. intros j Hj Heq.
    apply Hdistinct in Heq; unfold kNumTservers in *; lia. }
  unfold TestTabletLocations, GetTabletLocations. split.
  - intros Hpass. destruct rpc_ok.
    2: { cbn [check_replicas TabletLocationsPB_replicas] in Hpass.
         destruct (decide (0 = size _)); discriminate Hpass. }
    destruct resp as [|tablet [|]];
      cbn [check_replicas TabletLocationsPB_replicas] in Hpass.
    1, 3: (destruct (decide (0 = size _)); discriminate Hpass).
    destruct (check_replicas
                (TabletLocationsPB_replicas tablet)
                (ts_uuid_to_index_ permanent_uuid))
      as [[[] unseen]|] eqn:Hrun; try discriminate Hpass.
    destruct (decide (0 = size unseen)) as [Hsize|]; [|discriminate Hpass].
    symmetry in Hsize. apply map_size_empty_iff in Hsize. subst unseen.
    destruct (check_replicas_held _ _ _ ts_uuid_to_index_entries Hrun)
      as (order & Hmap & Hnd & Hin & Hleft).
    split; [reflexivity|]. exists tablet, order.
    split; [reflexivity|]. split; [|exact Hmap].
    apply NoDup_Permutation; [exact Hnd | apply NoDup_seq |].
    intros x. rewrite elem_of_seq. split.
    + intros Hx. apply Hin, ts_uuid_to_index_entries in Hx. lia.
    + intros Hx. destruct (decide (x ∈ order)) as [|Hout]; [assumption|].
      exfalso.
      assert (Hstill : (∅ : gmap string nat) !! permanent_uuid x = Some x).
      { apply Hleft. split; [apply Hown; lia|].
        intros i Hi Heq. apply Hdistinct in Heq.
        - subst i. contradiction.
        - lia.
        - apply Hin, ts_uuid_to_index_entries in Hi. tauto. }
      rewrite lookup_empty in Hstill. discriminate.
  - intros (-> & tablet & order & -> & Hperm & Hmap).
    assert (Hlen : length (TabletLocationsPB_replicas tablet) = kNumTservers).
    { rewrite <- (length_map ts_info), Hmap, length_map.
      rewrite (Permutation_length Hperm). apply length_seq. }
    assert (Hmem : forall i, i ∈ order <-> i < kNumTservers).
    { intros i. rewrite Hperm, elem_of_seq. lia. }
    destruct (check_replicas_reported order
                (TabletLocationsPB_replicas tablet)
                (ts_uuid_to_index_ permanent_uuid))
      as (unseen & Hrun & Hleft).
    + rewrite Hperm. apply NoDup_seq.
    + intros i Hi. apply Hown, Hmem, Hi.
    + intros i j Hi Hj. apply Hdistinct; apply Hmem; assumption.
    + exact Hmap.
    + rewrite Hrun, Hlen.
      assert (Hempty : unseen = ∅).
      { apply map_empty. intros u.
        destruct (unseen !! u) as [j|] eqn:Hu; [|reflexivity].
        exfalso. apply Hleft in Hu. destruct Hu as [Hm Hall].
        destruct (ts_uuid_to_index_entries _ _ Hm) as [-> Hj].
        apply (Hall j); [apply Hmem; exact Hj | reflexivity]. }
      rewrite Hempty, map_size_empty.
      rewrite decide_True by reflexivity.
      rewrite bool_decide_eq_true_2 by reflexivity. reflexivity.
Qed.

(** A replica whose uuid the map does not hold any more is not caught by
    an assertion: the iterator is dereferenced before it is compared with
    the end of the map.  After replicas that pass, a replica with a uuid of
    no server, or of a server listed before, leaves the test without
    defined behaviour. *)
Theorem TestTabletLocations_stray_uuid_undefined
    (tablet_id : string) (order : list nat) (seen : list ReplicaPB)
    (stray : ReplicaPB) (rest : list ReplicaPB) :
  distinct_uuids permanent_uuid ->
  NoDup order ->
  (forall i, i ∈ order -> i < kNumTservers) ->
  map ts_info seen = map (ts_info_of permanent_uuid) order ->
  (forall i, i < kNumTservers ->
             TSInfoPB_permanent_uuid (ts_info stray) = permanent_uuid i ->
             i ∈ order) ->
  TestTabletLocations permanent_uuid true
    [{| TabletLocationsPB_tablet_id := tablet_id;
        TabletLocationsPB_replicas := seen ++ stray :: rest |}]
  = Undefined.
Proof.
  intros Hdistinct Hnd Hbound Hmap Hstray.
  assert (Hown : forall i, i < kNumTservers ->
            ts_uuid_to_index_ permanent_uuid !! permanent_uuid i = Some i).
  { intros i Hi. apply ts_uuid_to_index_first.
    repeat split; [exact Hi|]. intros j Hj Heq.
    apply Hdistinct in Heq; unfold kNumTservers in *; lia. }
  destruct (check_replicas_reported order seen
              (ts_uuid_to_index_ permanent_uuid))
    as (unseen & Hrun & Hleft).
  - exact Hnd.
  - intros i Hi. apply Hown, Hbound, Hi.
  - intros i j Hi Hj. apply Hdistinct; apply Hbound; assumption.
  - exact Hmap.
  - unfold TestTabletLocations, GetTabletLocations.
    cbn [TabletLocationsPB_replicas].
    rewrite check_replicas_app, Hrun. cbn [check_replicas].
    destruct (unseen !! TSInfoPB_permanent_uuid (ts_info stray))
      as [j|] eqn:Hu; [|reflexivity].
    exfalso. apply Hleft in Hu. destruct Hu as [Hm Hall].
    destruct (ts_uuid_to_index_entries _ _ Hm) as [Heq Hj].
    apply (Hall j); [apply Hstray; assumption | exact Heq].
Qed.

End TabletLocationsFacts.

(** ** The tablet [TestSelectTServer] builds *)

Lemma omap_all_some {A B : Type} (f : A -> option B) (g : A -> B)
    (l : list A) :
  (forall x, In x l -> f x = Some (g x)) -> omap f l = map g l.
Proof.
  induction l as [|a l IH]; intros Hall; [reflexivity|].
  simpl. rewrite (Hall a) by (left; reflexivity).
  f_equal. apply IH. intros x Hx. apply Hall. right. exact Hx.
Qed.

(** The server map of [TestSelectTServer], built with [emplace] from any
    report and from any map: a uuid ends with the server it had, or else
    with the first reported server that has it. *)
Lemma emplace_servers_lookup (permanent_uuid : nat -> string)
    (bound_rpc_addr : nat -> HostPort) (locs : list (nat * Role))
    (m : gmap string ReplicaEndpoint) (u : string) :
  fold_left
    (fun m e => match m !! permanent_uuid (fst e) with
                | Some _ => m
                | None => <[permanent_uuid (fst e) :=
                              tserver permanent_uuid bound_rpc_addr (fst e)]> m
                end) locs m !! u
  = match m !! u with
    | Some x => Some x
    | None =>
        match List.find (fun e => bool_decide (permanent_uuid (fst e) = u))
                locs with
        | Some e => Some (tserver permanent_uuid bound_rpc_addr (fst e))
        | None => None
        end
    end.
Proof.
  revert m. induction locs as [|a l IH]; intros m.
  - cbn. destruct (m !! u); reflexivity.
  - cbn [fold_left List.find]. rewrite IH.
    destruct (m !! permanent_uuid (fst a)) as [x|] eqn:Ha.
    + destruct (m !! u) as [y|] eqn:Hu; [reflexivity|].
      rewrite bool_decide_eq_false_2; [reflexivity|].
      intros Heq. rewrite Heq in Ha. congruence.
    + destruct (decide (permanent_uuid (fst a) = u)) as [Heq|Hne].
      * rewrite <- Heq, lookup_insert_eq, Ha.
        rewrite bool_decide_eq_true_2 by reflexivity. reflexivity.
      * rewrite lookup_insert_ne by exact Hne.
        rewrite (bool_decide_eq_false_2 _ Hne). reflexivity.
Qed.

(** When the reported servers have distinct uuids, the refresh of
    [TestSelectTServer] resolves every replica to its own server and drops
    none; when the report lists the three tablet servers in some order, the
    tablet holds exactly these three, whatever their roles. *)
Theorem remote_tablet_of_resolves_every_replica
    (permanent_uuid : nat -> string) (bound_rpc_addr : nat -> HostPort)
    (locs : list (nat * Role)) :
  (forall a b, In a (map fst locs) -> In b (map fst locs) ->
               permanent_uuid a = permanent_uuid b -> a = b) ->
  replicas (remote_tablet_of permanent_uuid bound_rpc_addr locs)
  = map (fun e => (tserver permanent_uuid bound_rpc_addr (fst e), snd e)) locs
  /\ (Permutation (map fst locs) (seq 0 kNumTservers) ->
      hosts_the_tservers permanent_uuid bound_rpc_addr
        (remote_tablet_of permanent_uuid bound_rpc_addr locs)).
Proof.
  intros Hinj.
  assert (Hreplicas :
    replicas (remote_tablet_of permanent_uuid bound_rpc_addr locs)
    = map (fun e => (tserver permanent_uuid bound_rpc_addr (fst e), snd e))
        locs).
  { unfold remote_tablet_of, refresh. cbn [fst replicas].
    rewrite (omap_all_some _
               (fun e : string * Role =>
                  (match List.find
                           (fun e' => bool_decide
                                        (permanent_uuid (fst e') = fst e))
                           locs with
                   | Some e' => tserver permanent_uuid bound_rpc_addr (fst e')
                   | None => tserver permanent_uuid bound_rpc_addr 0
                   end, snd e))).
    - rewrite List.map_map. apply map_ext_in. intros e He. cbn [fst snd].
      destruct (List.find _ locs) as [e'|] eqn:Hfind.
      + apply find_some in Hfind. destruct Hfind as [He' Heq].
        apply bool_decide_eq_true in Heq.
        rewrite (Hinj (fst e') (fst e)); [reflexivity| | |exact Heq];
          apply in_map; assumption.
      + exfalso. pose proof (find_none _ _ Hfind e He) as Hno.
        cbn beta in Hno. apply bool_decide_eq_false in Hno.
        apply Hno. reflexivity.
    - intros x Hx. apply in_map_iff in Hx. destruct Hx as (e & <- & He).
      cbn [fst snd]. rewrite emplace_servers_lookup, lookup_empty.
      destruct (List.find _ locs) as [e'|] eqn:Hfind; [reflexivity|].
      exfalso. pose proof (find_none _ _ Hfind e He) as Hno.
      cbn beta in Hno. apply bool_decide_eq_false in Hno.
      apply Hno. reflexivity. }
  split; [exact Hreplicas|].
  intros Hperm r. rewrite Hreplicas, List.map_map. cbn [fst].
  rewrite in_map_iff. split.
  - intros (e & <- & He). exists (fst e). split; [|reflexivity].
    assert (Hin : In (fst e) (seq 0 kNumTservers)).
    { eapply Permutation_in; [exact Hperm|]. apply in_map. exact He. }
    apply in_seq in Hin. lia.
  - intros (i & Hi & ->).
    assert (Hin : In i (map fst locs)).
    { eapply Permutation_in; [apply Permutation_sym; exact Hperm|].
      apply in_seq. lia. }
    apply in_map_iff in Hin. destruct Hin as (e & <- & He).
    exists e. split; [reflexivity | exact He].
Qed.

(** ** [TestTabletLocations] on the sample cluster *)

Lemma sample_uuid_distinct : distinct_uuids sample_uuid.
Proof.
  unfold distinct_uuids, kNumTservers. intros a b Ha Hb Heq.
  destruct a as [|[|[|a]]]; [| | |lia];
    (destruct b as [|[|[|b]]]; [| | |lia]);
    try reflexivity; discriminate Heq.
Qed.

Definition sample_report (order : list nat) : TabletLocationsPB :=
  {| TabletLocationsPB_tablet_id := "test_tablet_locations";
     TabletLocationsPB_replicas :=
       map (fun i => {| ts_info := ts_info_of sample_uuid i;
                        ReplicaPB_role := FOLLOWER |}) order |}.

Lemma TestTabletLocations_passes_iff_witness :
  distinct_uuids sample_uuid
  /\ TestTabletLocations sample_uuid true [sample_report [0; 1; 2]] = Passed.
Proof.
  split; [exact sample_uuid_distinct|].
  apply (proj2 (TestTabletLocations_passes_iff sample_uuid true
                  [sample_report [0; 1; 2]] sample_uuid_distinct)).
  split; [reflexivity|].
  exists (sample_report [0; 1; 2]), [0; 1; 2].
  split; [reflexivity|]. split; [apply Permutation_refl | reflexivity].
Defined.

Lemma TestTabletLocations_stray_uuid_undefined_witness :
  TestTabletLocations sample_uuid true [sample_report [0; 0; 1]] = Undefined.
Proof.
  apply (TestTabletLocations_stray_uuid_undefined sample_uuid
           "test_tablet_locations" [0]
           [{| ts_info := ts_info_of sample_uuid 0;
               ReplicaPB_role := FOLLOWER |}]
           {| ts_info := ts_info_of sample_uuid 0; ReplicaPB_role := FOLLOWER |}
           [{| ts_info := ts_info_of sample_uuid 1;
               ReplicaPB_role := FOLLOWER |}]).
  - exact sample_uuid_distinct.
  - apply NoDup_singleton.
  - intros i Hi. apply list_elem_of_singleton in Hi. subst i.
    unfold kNumTservers. lia.
  - reflexivity.
  - intros i Hi Heq. apply list_elem_of_singleton.
    apply sample_uuid_distinct; [exact Hi | unfold kNumTservers; lia |].
    symmetry. exact Heq.
Defined.

Lemma remote_tablet_of_resolves_every_replica_witness :
  replicas sample_tablet
  = [(tserver sample_uuid sample_addr 2, FOLLOWER);
     (tserver sample_uuid sample_addr 0, LEADER);
     (tserver sample_uuid sample_addr 1, FOLLOWER)].
Proof.
  apply (remote_tablet_of_resolves_every_replica sample_uuid sample_addr
           [(2, FOLLOWER); (0, LEADER); (1, FOLLOWER)]).
  intros a b Ha Hb Heq. apply sample_uuid_distinct; [| |exact Heq];
    unfold kNumTservers; cbn in Ha, Hb; lia.
Defined.

End Placement.
